(** * Verification of the local repository import engine of colcon-ros-buildfarm

    Shallow embedding of [colcon_ros_buildfarm/local_repository/rpm.py] and
    [colcon_ros_buildfarm/local_repository/deb.py].  Paths are lists of
    path components, file names are [string]s, directory trees are lists of
    file paths (rpm) or association lists from file paths to contents (apt). *)

From Stdlib Require Import String Ascii List Bool Arith Lia ZArith.
From Stdlib Require Import Sorting.Permutation Sorting.Sorted.
From Stdlib Require Import DecimalString.
Import ListNotations.
Open Scope bool_scope.

(* ------------------------------------------------------------------------- *)
(** ** Shell-style glob patterns ([fnmatch] with [*] only) *)

Module Glob.

(** [glob_match pat s]: [pat] matched against a whole file name, [*]
    standing for any (possibly empty) run of characters, as pathlib's
    [glob] does for one path component (case sensitive, POSIX). *)
Fixpoint glob_match (pat s : string) {struct pat} : bool :=
  match pat with
  | EmptyString => match s with EmptyString => true | _ => false end
  | String c pat' =>
      if Ascii.eqb c "*" then
        (fix star (s : string) : bool :=
           glob_match pat' s ||
           match s with EmptyString => false | String _ s' => star s' end) s
      else
        match s with
        | EmptyString => false
        | String d s' => Ascii.eqb c d && glob_match pat' s'
        end
  end.

End Glob.
Import Glob.

(* ------------------------------------------------------------------------- *)
(** ** The rpm package-identity pattern

    "(.+)-(\d+(?:\.\d+)*)-(\d+.*)\.([^\.]+)\.rpm" used with
    [.match]: anchored at the start only.  The matcher below is written in
    continuation style: each [*_then k s] says "a prefix of [s] matches this
    piece and [k] accepts the rest".  Group 1 is computed as Python's
    backtracking finds it: the greedy [(.+)] keeps the longest prefix for
    which the rest of the pattern matches. *)

Module RpmPattern.

Definition is_digit (c : ascii) : bool :=
  let n := nat_of_ascii c in (48 <=? n) && (n <=? 57).
Definition not_newline (c : ascii) : bool := negb (Ascii.eqb c "010"%char).
Definition not_dot (c : ascii) : bool := negb (Ascii.eqb c "."%char).

(** [p*] followed by [k] *)
Fixpoint star_then (p : ascii -> bool) (k : string -> bool) (s : string)
  : bool :=
  k s || match s with
         | EmptyString => false
         | String c s' => p c && star_then p k s'
         end.

(** [p+] followed by [k] *)
Definition plus_then (p : ascii -> bool) (k : string -> bool) (s : string)
  : bool :=
  match s with
  | EmptyString => false
  | String c s' => p c && star_then p k s'
  end.

(** [\.rpm] (no end anchor: [re.match]) *)
Definition rpm_ext_then (s : string) : bool := prefix ".rpm" s.

(** [\.([^\.]+)\.rpm] *)
Definition arch_then (s : string) : bool :=
  match s with
  | String c s' => Ascii.eqb c "." && plus_then not_dot rpm_ext_then s'
  | EmptyString => false
  end.

(** "(\d+.*)" followed by the arch part *)
Definition release_then (s : string) : bool :=
  plus_then is_digit (star_then not_newline arch_then) s.

(** after one digit of [\d+(?:\.\d+)*]: more digits, or a dot and a digit *)
Fixpoint version_rest_then (k : string -> bool) (s : string) : bool :=
  k s ||
  match s with
  | String c s' =>
      if is_digit c then version_rest_then k s'
      else if Ascii.eqb c "." then
        match s' with
        | String d s'' => is_digit d && version_rest_then k s''
        | EmptyString => false
        end
      else false
  | EmptyString => false
  end.

(** "-(\d+.*)\.([^\.]+)\.rpm" *)
Definition after_version (s : string) : bool :=
  match s with
  | String c s' => Ascii.eqb c "-" && release_then s'
  | EmptyString => false
  end.

(** "-(\d+(?:\.\d+)*)-(\d+.*)\.([^\.]+)\.rpm" *)
Definition after_name (s : string) : bool :=
  match s with
  | String c (String d s') =>
      Ascii.eqb c "-" && is_digit d && version_rest_then after_version s'
  | _ => false
  end.

(** [(.+)]: the longest non-empty prefix of non-newline characters after
    which the rest of the pattern matches. *)
Fixpoint longest_name (s : string) : option string :=
  match s with
  | EmptyString => None
  | String c s' =>
      if not_newline c then
        match longest_name s' with
        | Some n => Some (String c n)
        | None => if after_name s' then Some (String c EmptyString) else None
        end
      else None
  end.

(** [m = self._pkg_match.match(name)]; [m.group(1)] when [m] *)
Definition pkg_match (name : string) : option string := longest_name name.

End RpmPattern.
Import RpmPattern.

(* ------------------------------------------------------------------------- *)
(** ** Paths *)

Module Paths.

(** A path relative to a repository directory, as its list of components. *)
Definition path := list string.

(** [Path.name]: the last component *)
Definition name (p : path) : string := last p EmptyString.

(** [p] is a (non-strict) prefix of [q]: a file at [p] blocks anything
    below it, a file below [q] makes [q] a directory. *)
Fixpoint is_prefix (p q : path) : bool :=
  match p, q with
  | [], _ => true
  | a :: p', b :: q' => String.eqb a b && is_prefix p' q'
  | _, [] => false
  end.

End Paths.
Import Paths.

(* ------------------------------------------------------------------------- *)
(** ** [LocalRpmRepositoryExtension._import_to_no_lock] *)

Module RpmImport.

Inductive error := IndexError | OSError | CalledProcessError.

(** What an import leaves behind: the files under [repo_dir], the warnings
    logged, and the exception raised, if any.  The file system is not rolled
    back when an exception is raised. *)
Record outcome := {
  out_files : list path;
  out_warnings : list string;
  out_error : option error
}.

Definition warn_msg (n : string) : string :=
  "Failed to parse package name: " ++ n.

(** First loop: [names] and the warnings. *)
Fixpoint collect_names (rpms : list string) : list string * list string :=
  match rpms with
  | [] => ([], [])
  | r :: rest =>
      let '(names, warns) := collect_names rest in
      match pkg_match r with
      | None => (names, warn_msg r :: warns)
      | Some n => (n :: names, warns)
      end
  end.

Definition names_of (rpms : list string) : list string := fst (collect_names rpms).

(** [repo_dir.rglob('*.rpm')] lists [p]; [m and m.group(1) in names] *)
Definition doomed (names : list string) (p : path) : bool :=
  glob_match "*.rpm" (name p) &&
  match pkg_match (name p) with
  | Some n => existsb (String.eqb n) names
  | None => false
  end.

(** Second loop: unlink every doomed file. *)
Definition delete_conflicts (names : list string) (repo : list path)
  : list path :=
  filter (fun p => negb (doomed names p)) repo.

(** [repo_dir / 'Packages' / rpm.name[0] / rpm.name] *)
Definition pool_path (r : string) : path :=
  ["Packages"%string; substring 0 1 r; r].

(** [rpm.name[0]] raises [IndexError] on an empty name *)
Definition link_target (r : string) : option path :=
  match r with
  | EmptyString => None
  | String _ _ => Some (pool_path r)
  end.

(** Third loop: [mkdir(parents=True, exist_ok=True)] then [hardlink_to].
    Both fail when a file sits on the target or on one of its parents, or
    when the target is an existing directory. *)
Fixpoint link_all (repo : list path) (rpms : list string)
  : list path * option error :=
  match rpms with
  | [] => (repo, None)
  | r :: rest =>
      match link_target r with
      | None => (repo, Some IndexError)
      | Some t =>
          if existsb (fun p => is_prefix p t || is_prefix t p) repo
          then (repo, Some OSError)
          else link_all (repo ++ [t]) rest
      end
  end.

(** [_import_to_no_lock repo_dir rpms]; [rc] is the exit status of the
    [createrepo_c --update] run, which only rewrites [repodata/]. *)
Definition import_to_no_lock (repo : list path) (rpms : list string) (rc : Z)
  : outcome :=
  let '(names, warns) := collect_names rpms in
  let repo1 := delete_conflicts names repo in
  let '(repo2, err) := link_all repo1 rpms in
  match err with
  | Some e => {| out_files := repo2; out_warnings := warns; out_error := Some e |}
  | None =>
      {| out_files := repo2; out_warnings := warns;
         out_error := if Z.eqb rc 0 then None else Some CalledProcessError |}
  end.

End RpmImport.
Import RpmImport.

(* ------------------------------------------------------------------------- *)
(** ** [LocalRpmRepositoryExtension.import_binary] and [initialize] *)

Module RpmExtension.

(** The three repository directories below [<base>/<os>/<code>]. *)
Inductive repo_dir := SRPMS | ArchDir | DebugDir.

(** [set.update] / [set.difference_update] on sets of paths of one
    directory, where two paths are equal exactly when their names are. *)
Definition set_union (a b : list string) : list string :=
  a ++ filter (fun x => negb (existsb (String.eqb x) a)) b.
Definition set_diff (a b : list string) : list string :=
  filter (fun x => negb (existsb (String.eqb x) b)) a.

(** [artifact_path.glob('binarypkg/' + pat)] over the names in [binarypkg] *)
Definition glob_dir (pat : string) (files : list string) : list string :=
  filter (glob_match pat) files.

Record partition := {
  srpms : list string;
  debug_rpms : list string;
  arch_rpms : list string
}.

Definition partition_binary (files : list string) : partition :=
  let srpms := glob_dir "*.src.rpm" files in
  let debug := set_union (glob_dir "*-debuginfo-*.rpm" files)
                         (glob_dir "*-debugsource-*.rpm" files) in
  let arch := set_diff (set_diff (glob_dir "*.rpm" files) srpms) debug in
  {| srpms := srpms; debug_rpms := debug; arch_rpms := arch |}.

Inductive action :=
| ImportTo (d : repo_dir) (rpms : list string)
| Warn (msg : string).

(** [import_binary]: the [_import_to] calls and warnings, in order (each
    [_import_to] call assumed to return normally). *)
Definition import_binary (artifact_path : string) (files : list string)
  : list action :=
  let p := partition_binary files in
  (match arch_rpms p with
   | [] => [Warn ("Found no arch RPMs to import from " ++ artifact_path)]
   | _ => [ImportTo ArchDir (arch_rpms p)]
   end) ++
  (match debug_rpms p with
   | [] => []
   | _ => [ImportTo DebugDir (debug_rpms p)]
   end).

Inductive init_action := Mkdir (d : repo_dir) | CreateRepo (d : repo_dir).

(** [initialize]: [has_repomd d] is [(d / 'repodata' / 'repomd.xml').is_file()] *)
Definition initialize (has_repomd : repo_dir -> bool) : list init_action :=
  flat_map (fun d => if has_repomd d then [] else [Mkdir d; CreateRepo d])
           [SRPMS; ArchDir; DebugDir].

End RpmExtension.

(* ------------------------------------------------------------------------- *)
(** ** [deb.py]: apt metadata under [dists/<os_code_name>] *)

Module Deb.

(** Files below [dist_dir = os_dir / 'dists' / os_code_name], with their
    bytes; directories are implicit. *)
Definition tree := list (path * string).

Definition path_eqb (p q : path) : bool :=
  if list_eq_dec string_dec p q then true else false.

Fixpoint lookup (t : tree) (p : path) : option string :=
  match t with
  | [] => None
  | (q, c) :: t' => if path_eqb q p then Some c else lookup t' p
  end.

Definition is_file (t : tree) (p : path) : bool :=
  match lookup t p with Some _ => true | None => false end.

Definition read (t : tree) (p : path) : string :=
  match lookup t p with Some c => c | None => EmptyString end.

(** [open(p, 'w')] and write [c]: replaces the content or adds the file *)
Definition write_file (t : tree) (p : path) (c : string) : tree :=
  if is_file t p
  then map (fun '(q, d) => if path_eqb q p then (q, c) else (q, d)) t
  else t ++ [(p, c)].

(** [str(relative_to(dist_dir))] *)
Fixpoint join_path (p : path) : string :=
  match p with
  | [] => EmptyString
  | [a] => a
  | a :: p' => a ++ "/" ++ join_path p'
  end.

(** [PurePath.__lt__]: lexicographic on the components *)
Fixpoint path_ltb (p q : path) : bool :=
  match p, q with
  | _, [] => false
  | [], _ :: _ => true
  | a :: p', b :: q' =>
      if String.eqb a b then path_ltb p' q' else String.ltb a b
  end.

(** [sorted]: a stable insertion sort on [<] *)
Fixpoint insert_sorted (e : path * string) (l : list (path * string))
  : list (path * string) :=
  match l with
  | [] => [e]
  | e' :: l' => if path_ltb (fst e) (fst e') then e :: l
                else e' :: insert_sorted e l'
  end.

Fixpoint sort_paths (l : list (path * string)) : list (path * string) :=
  match l with
  | [] => []
  | e :: l' => insert_sorted e (sort_paths l')
  end.

(** [dist_dir.glob('main/*/Packages*')] *)
Definition packages_glob (p : path) : bool :=
  match p with
  | [m; comp; f] => String.eqb m "main" && glob_match "*" comp
                    && glob_match "Packages*" f
  | _ => false
  end.

(** [dist_dir.glob('main/source/Sources*')] *)
Definition sources_glob (p : path) : bool :=
  match p with
  | [m; s; f] => String.eqb m "main" && String.eqb s "source"
                 && glob_match "Sources*" f
  | _ => false
  end.

(** [package_files], each with the bytes [file.read()] returns *)
Definition package_files (t : tree) : list (path * string) :=
  sort_paths (filter (fun e => packages_glob (fst e)) t ++
              filter (fun e => sources_glob (fst e)) t).

Definition nl : string := String "010" EmptyString.

Definition show_nat (n : nat) : string := NilEmpty.string_of_uint (Nat.to_uint n).

Section Release.

(** [hashlib.md5(...).hexdigest()] and the like, and the formatted
    [datetime.now(...)]: inputs of the model. *)
Variables md5_hex sha1_hex sha256_hex : string -> string.
Variable now : string.

(** [' {hexdigest} {st_size} {relative path}\n'] *)
Definition digest_line (hex : string -> string) (e : path * string) : string :=
  " " ++ hex (snd e) ++ " " ++ show_nat (String.length (snd e)) ++ " "
  ++ join_path (fst e) ++ nl.

Definition digest_block (title : string) (hex : string -> string)
  (files : list (path * string)) : string :=
  title ++ ":" ++ nl ++ String.concat EmptyString (map (digest_line hex) files).

Definition release_header (code : string) : list string :=
  [ "Origin: ROS"; "Label: ROS " ++ code; "Suite: " ++ code;
    "Codename: " ++ code; "Date: " ++ now; "Architectures: amd64";
    "Components: main"; "Description: ROS " ++ code ++ " Debian Repository" ]%string.

Definition release_text (code : string) (files : list (path * string))
  : string :=
  String.concat EmptyString (map (fun l : string => (l ++ nl)%string) (release_header code)) ++
  digest_block "MD5Sum" md5_hex files ++
  digest_block "SHA1" sha1_hex files ++
  digest_block "SHA256" sha256_hex files.

(** [_generate_release(os_dir, os_code_name)] *)
Definition generate_release (t : tree) (code : string) : tree :=
  write_file t ["Release"%string] (release_text code (package_files t)).

(** Reading a file opened with [open('r')]: universal newlines turn
    [\r\n] and a lone [\r] into [\n] (the bytes are taken to be valid text). *)
Fixpoint translate_newlines (s : string) : string :=
  match s with
  | EmptyString => EmptyString
  | String c s' =>
      if Ascii.eqb c "013" then
        match s' with
        | String d s'' =>
            if Ascii.eqb d "010" then String "010" (translate_newlines s'')
            else String "010" (translate_newlines s')
        | EmptyString => String "010" EmptyString
        end
      else String c (translate_newlines s')
  end.

Definition sources_path : path := ["main"; "source"; "Sources"]%string.
Definition sources_gz_path : path := ["main"; "source"; "Sources.gz"]%string.
Definition packages_path (arch : string) : path :=
  ["main"; "binary-" ++ arch; "Packages"]%string.
Definition packages_gz_path (arch : string) : path :=
  ["main"; "binary-" ++ arch; "Packages.gz"]%string.
Definition release_path : path := ["Release"%string].

(** State of [initialize]: the tree, the paths written so far, and
    [force_update]. *)
Definition init_state : Type := tree * list path * bool.

(** [if not md_file.is_file(): mkdir; touch(); force_update = True] *)
Definition ensure_index (st : init_state) (p : path) : init_state :=
  let '(t, w, force) := st in
  if is_file t p then st else (write_file t p EmptyString, w ++ [p], true).

(** [if not gz.is_file(): copyfileobj(md.open('r'), gz.open('w'));
    force_update = True] *)
Definition ensure_twin (st : init_state) (p gz : path) : init_state :=
  let '(t, w, force) := st in
  if is_file t gz then st
  else (write_file t gz (translate_newlines (read t p)), w ++ [gz], true).

(** [LocalDebRepositoryExtension.initialize]: the final tree and the list
    of files written *)
Definition initialize (t : tree) (code arch : string) : tree * list path :=
  let st := ensure_index (t, [], false) sources_path in
  let st := ensure_twin st sources_path sources_gz_path in
  let st := ensure_index st (packages_path arch) in
  let '(t, w, force) := ensure_twin st (packages_path arch) (packages_gz_path arch) in
  if negb (is_file t release_path) || force
  then (generate_release t code, w ++ [release_path])
  else (t, w).

End Release.

(** RFC 1952: every gzip member starts with the bytes [0x1f 0x8b]. *)
Definition has_gzip_magic (s : string) : bool :=
  prefix (String "031" (String "139" EmptyString)) s.

End Deb.

(* ------------------------------------------------------------------------- *)
(** ** [_copy_to_pool] and the apt imports *)

Module DebPool.
Import Deb.

Inductive error := AssertionError | IndexError.

(** ['_' in s] *)
Fixpoint has_underscore (s : string) : bool :=
  match s with
  | EmptyString => false
  | String c s' => Ascii.eqb c "_" || has_underscore s'
  end.

(** [s.split('_', 1)[0]] *)
Fixpoint before_underscore (s : string) : string :=
  match s with
  | EmptyString => EmptyString
  | String c s' =>
      if Ascii.eqb c "_" then EmptyString else String c (before_underscore s')
  end.

(** [_copy_to_pool(pool_dir, path)] for a file named [fname] holding [c];
    the pool is the tree below [pool_dir].  [shutil.copy2] into the
    directory [subdir] writes [subdir / fname], replacing a file there. *)
Definition copy_to_pool (pool : tree) (fname c : string) : tree + error :=
  if negb (has_underscore fname) then inr AssertionError
  else
    let name := before_underscore fname in
    match name with
    | EmptyString => inr IndexError
    | String c0 _ => inl (write_file pool [String c0 EmptyString; name; fname] c)
    end.

(** [pool/<name[0]>/<name>/<fname>] *)
Definition pool_subpath (fname : string) : path :=
  let name := before_underscore fname in
  [substring 0 1 name; name; fname].

(** The [for deb in ...glob(...): _copy_to_pool(pool_dir, deb)] loops of
    [import_source] / [import_binary]: the pool afterwards and the
    exception, if any (files copied before it stay). *)
Fixpoint copy_all (pool : tree) (files : list (string * string))
  : tree * option error :=
  match files with
  | [] => (pool, None)
  | (f, c) :: rest =>
      match copy_to_pool pool f c with
      | inr e => (pool, Some e)
      | inl pool' => copy_all pool' rest
      end
  end.

End DebPool.

(* ------------------------------------------------------------------------- *)
(** ** The per-directory locks: [self._lock = defaultdict(Lock)] *)

Module Locks.

(** An import coroutine: the lock keys of the [async with self._lock[...]]
    blocks it still has to run, in order, and the key of the block it is
    inside, if any. *)
Record task := { pending : list path; holding : option path }.

Definition start (keys : list path) : task := {| pending := keys; holding := None |}.

(** apt [import_source] / [import_binary]: [self._lock[os_dir]] *)
Definition deb_import_task (base : path) (os_name : string) : task :=
  start [base ++ [os_name]].

(** rpm [import_binary]: [_import_to(arch_dir, ...)] then
    [_import_to(debug_dir, ...)], each only for a non-empty set *)
Definition rpm_import_binary_task (base : path) (os_name code arch : string)
  (has_arch has_debug : bool) : task :=
  let arch_dir := base ++ [os_name; code; arch] in
  start ((if has_arch then [arch_dir] else []) ++
         (if has_debug then [arch_dir ++ ["debug"%string]] else [])).

(** rpm [import_source]: [_import_to(srpms_dir, ...)] *)
Definition rpm_import_source_task (base : path) (os_name code : string) : task :=
  start [base ++ [os_name; code; "SRPMS"%string]].

Definition held (ts : list task) : list path :=
  flat_map (fun t => match holding t with Some k => [k] | None => [] end) ts.

(** One scheduling step of the event loop.  [asyncio.Lock.acquire] lets a
    coroutine in only while no coroutine holds the lock; the body of the
    block may suspend at any [await], which is any interleaving of the other
    coroutines' steps; leaving the block releases the lock. *)
Inductive step : list task -> list task -> Prop :=
| step_acquire ts1 ts2 k ks :
    ~ In k (held ts1 ++ held ts2) ->
    step (ts1 ++ {| pending := k :: ks; holding := None |} :: ts2)
         (ts1 ++ {| pending := ks; holding := Some k |} :: ts2)
| step_release ts1 ts2 k ks :
    step (ts1 ++ {| pending := ks; holding := Some k |} :: ts2)
         (ts1 ++ {| pending := ks; holding := None |} :: ts2).

Inductive reachable : list task -> list task -> Prop :=
| reach_refl ts : reachable ts ts
| reach_step ts ts' ts'' : step ts ts' -> reachable ts' ts'' -> reachable ts ts''.

End Locks.

(* ------------------------------------------------------------------------- *)
(** ** rpm [import_source] *)

Module RpmSource.
Import RpmExtension.

(** [import_source]: [files] are the names in [artifact_path/sourcepkg];
    the warning and the [_import_to(srpms_dir, srpms)] call, in order. *)
Definition import_source (artifact_path : string) (files : list string)
  : list action :=
  let srpms := glob_dir "*.src.rpm" files in
  let num_srpms := length srpms in
  (if Nat.eqb num_srpms 1 then []
   else [Warn ("Found unexpected number of source RPMs in " ++ artifact_path
               ++ " (" ++ Deb.show_nat num_srpms ++ ")")%string]) ++
  (match srpms with [] => [] | _ => [ImportTo SRPMS srpms] end).

End RpmSource.

(* ------------------------------------------------------------------------- *)
(** ** apt [_update_metadata], [_RawAndGzFiles] and the imports *)

Module DebMeta.
Import Deb DebPool.

Inductive import_error :=
| PoolError (e : DebPool.error)
| CalledProcessError.

(** [arch] is [None] for [import_source]; [if arch] is Python truthiness:
    the empty string is false. *)
Definition arch_truthy (arch : option string) : bool :=
  match arch with Some (String _ _) => true | _ => false end.

(** [meta_dir = dist_dir / 'main' / ('binary-' + arch if arch else 'source')] *)
Definition meta_component (arch : option string) : string :=
  match arch with
  | Some (String _ _ as a) => ("binary-" ++ a)%string
  | _ => "source"%string
  end.

(** [md_file = meta_dir / ('Packages' if arch else 'Sources')] *)
Definition md_name (arch : option string) : string :=
  if arch_truthy arch then "Packages"%string else "Sources"%string.

Definition md_path (arch : option string) : path :=
  ["main"%string; meta_component arch; md_name arch].

(** [gzip.open(str(self._path) + '.gz', 'wb')] *)
Definition md_gz_path (arch : option string) : path :=
  ["main"%string; meta_component arch; (md_name arch ++ ".gz")%string].

Record meta_result := {
  meta_tree : tree;
  meta_cmd : list string;
  meta_error : option import_error
}.

Section Meta.

Variables md5_hex sha1_hex sha256_hex : string -> string.
Variable now : string.
(** [gzip_compress s]: the bytes a [gzip.open(..., 'wb')] file holds after
    [s] was written to it in one or more [write] calls (a gzip stream whose
    decompression is [s]). *)
Variable gzip_compress : string -> string.
(** [shutil.which('dpkg-scanpackages')] and [shutil.which('dpkg-scansources')] *)
Variables dpkg_scanpackages dpkg_scansources : string.

(** [dpkg_args]: chosen on [arch is None], not on truthiness *)
Definition dpkg_args (arch : option string) : list string :=
  match arch with
  | None => [dpkg_scansources; "pool/"%string]
  | Some a => [dpkg_scanpackages; "--arch"%string; a; "pool/"%string]
  end.

(** [_update_metadata(os_dir, os_code_name, arch)] on the tree of
    [dist_dir]: [out] is what the scanner writes to its stdout, chunk by
    chunk (each chunk passed to [md.write]), [rc] its exit status.  Both
    files of [_RawAndGzFiles] are written in full before
    [check_returncode()] raises. *)
Definition update_metadata (t : tree) (code : string) (arch : option string)
  (out : list string) (rc : Z) : meta_result :=
  let raw := String.concat EmptyString out in
  let t1 := write_file (write_file t (md_path arch) raw)
                       (md_gz_path arch) (gzip_compress raw) in
  {| meta_tree :=
       if Z.eqb rc 0 then generate_release md5_hex sha1_hex sha256_hex now t1 code
       else t1;
     meta_cmd := dpkg_args arch;
     meta_error := if Z.eqb rc 0 then None else Some CalledProcessError |}.

(** [os_dir / 'pool'] and [os_dir / 'dists' / os_code_name] *)
Record repo := { pool : tree; dist : tree }.

(** the three [glob] loops of [import_source], one after the other, over
    the files of [artifact_path / 'sourcedeb'] (name, bytes) *)
Definition source_globs : list string :=
  ["*.dsc"; "*.orig.tar.gz"; "*.debian.tar.xz"]%string.

Definition source_files (files : list (string * string)) : list (string * string) :=
  flat_map (fun pat => filter (fun f => glob_match pat (fst f)) files) source_globs.

(** [(artifact_path / 'binarydeb').glob('*.deb')] *)
Definition binary_files (files : list (string * string)) : list (string * string) :=
  filter (fun f => glob_match "*.deb" (fst f)) files.

(** the body of [async with self._lock[os_dir]]: copy the batch into the
    pool, then [_update_metadata]; an exception from [_copy_to_pool] ends
    the import before the metadata is touched. *)
Definition import_batch (r : repo) (code : string) (arch : option string)
  (batch : list (string * string)) (out : list string) (rc : Z)
  : repo * option import_error :=
  let '(pool', err) := copy_all (pool r) batch in
  match err with
  | Some e => ({| pool := pool'; dist := dist r |}, Some (PoolError e))
  | None =>
      let m := update_metadata (dist r) code arch out rc in
      ({| pool := pool'; dist := meta_tree m |}, meta_error m)
  end.

Definition import_source (r : repo) (code : string)
  (files : list (string * string)) (out : list string) (rc : Z)
  : repo * option import_error :=
  import_batch r code None (source_files files) out rc.

Definition import_binary (r : repo) (code arch : string)
  (files : list (string * string)) (out : list string) (rc : Z)
  : repo * option import_error :=
  import_batch r code (Some arch) (binary_files files) out rc.

End Meta.

End DebMeta.

(* ------------------------------------------------------------------------- *)
(** ** Callers: [select_local_repository_extension] and
    [LocalPackageImportExtension] ([package_import/local.py]) *)

Module LocalImport.

Section Local.

(** a local repository extension (an instance, as [instantiate_extensions]
    returns it) *)
Variable ext : Type.
(** [ros_buildfarm.common.package_format_mapping.get] *)
Variable package_format : string -> option string.
(** the repository base directory on disk, and the exceptions an
    extension's [initialize] may raise (e.g. the [CalledProcessError] of
    the [createrepo_c] call of the rpm extension) *)
Variable disk : Type.
Variable exn : Type.
(** [extension.initialize(repo_base, os_name, os_code_name, arch)]: the
    disk afterwards and the exception raised, if any *)
Variable initialize : ext -> string -> string -> string -> disk -> disk * option exn.

(** [dict.get] on a dict given by its items, in order *)
Fixpoint dict_get {A} (k : string) (d : list (string * A)) : option A :=
  match d with
  | [] => None
  | (k', v) :: d' => if String.eqb k' k then Some v else dict_get k d'
  end.

(** [select_local_repository_extension(os_name, extensions=extensions)] *)
Definition select_local_repository_extension (os_name : string)
  (extensions : list (string * ext)) : option ext :=
  match package_format os_name with
  | Some f => dict_get f extensions
  | None => None
  end.

(** the calls made: [initialize] of an extension, and the start of the
    file server *)
Inductive setup_event :=
| Init (e : ext) (os_name os_code_name arch : string)
| StartServer.

(** the exceptions [_set_up_server] and [augment_config] raise *)
Inductive setup_error :=
| RuntimeError (msg : string)
| AssertionError (msg : string)
| Raised (e : exn).

(** the loop of [_set_up_server]: the [initialize] calls made, the disk
    afterwards, and the exception that ended the loop, if any *)
Fixpoint init_targets (extensions : list (string * ext))
  (targets : list (string * string * string)) (d : disk)
  : list setup_event * disk * option setup_error :=
  match targets with
  | [] => ([], d, None)
  | (os_name, code, arch) :: rest =>
      match select_local_repository_extension os_name extensions with
      | None => ([], d, Some (RuntimeError ("No local repo support for " ++ os_name)%string))
      | Some e =>
          match initialize e os_name code arch d with
          | (d', Some x) => ([Init e os_name code arch], d', Some (Raised x))
          | (d', None) =>
              let '(evs, d'', err) := init_targets extensions rest d' in
              (Init e os_name code arch :: evs, d'', err)
          end
      end
  end.

(** [_set_up_server]: after the loop, [SimpleFileServer(str(repo_base))]
    is started; [started] is the [(host, port)] its [start(port=port)]
    returns, or the exception it raises *)
Definition set_up_server (extensions : list (string * ext))
  (targets : list (string * string * string)) (d : disk)
  (started : (string * nat) + exn)
  : list setup_event * disk * ((string * nat) + setup_error) :=
  let '(evs, d', err) := init_targets extensions targets d in
  match err with
  | Some m => (evs, d', inr m)
  | None =>
      (evs ++ [StartServer], d',
       match started with inl hp => inl hp | inr x => inr (Raised x) end)
  end.

(** The parts of a build file [augment_config] reads or writes:
    [targets] (OS -> code name -> arches, in the YAML mapping's order) and
    [repositories: {keys, urls}] (absent keys as [None]), and
    [target_repository]. *)
Record repositories := {
  repo_keys : option (list string);
  repo_urls : option (list string)
}.

Record build_file := {
  bf_targets : list (string * list (string * list string));
  bf_repositories : option repositories;
  bf_target_repository : option string
}.

Inductive augment_result :=
| Skipped
| Failed (evs : list setup_event) (err : setup_error)
| Written (evs : list setup_event) (bf : build_file).

(** [for os_name, target in targets.items(): ...; break], [else: assert] *)
Definition first_os_targets (ts : list (string * list (string * list string)))
  : option (string * list (string * string * string)) :=
  match ts with
  | [] => None
  | (os_name, target) :: _ =>
      Some (os_name,
            flat_map (fun '(code, arches) =>
                        map (fun arch => (os_name, code, arch)) arches) target)
  end.

(** [f'http://{host}:{port}/{os_name}'] *)
Definition repo_url (host : string) (port : nat) (os_name : string) : string :=
  ("http://" ++ host ++ ":" ++ Deb.show_nat port ++ "/" ++ os_name)%string.

Definition opt_eqb (a : option string) (b : string) : bool :=
  match a with Some a' => String.eqb a' b | None => false end.

Definition is_some {A} (a : option A) : bool :=
  match a with Some _ => true | None => false end.

(** [augment_config] from the loaded build file on, starting from the
    disk [d]: the calls made, then the build file dumped back, or the
    exception raised; [started] as for [set_up_server]. *)
Definition augment_config (extensions : list (string * ext))
  (package_import build_name ros_distro : option string)
  (bf : build_file) (d : disk) (started : (string * nat) + exn) : augment_result :=
  if negb (opt_eqb package_import "local") || negb (is_some build_name)
     || negb (is_some ros_distro)
  then Skipped
  else
    match first_os_targets (bf_targets bf) with
    | None => Failed [] (AssertionError "A build file can only support a single OS")
    | Some (os_name, targets) =>
        let repos := match bf_repositories bf with
                     | Some r => r
                     | None => {| repo_keys := None; repo_urls := None |}
                     end in
        let keys := match repo_keys repos with Some k => k | None => [] end in
        let urls := match repo_urls repos with Some u => u | None => [] end in
        let keys := EmptyString :: keys in
        match set_up_server extensions targets d started with
        | (evs, _, inr m) => Failed evs m
        | (evs, _, inl (host, port)) =>
            let url := repo_url host port os_name in
            let urls :=
              (if String.eqb os_name "fedora" || String.eqb os_name "rhel"
               then (url ++ "/$releasever/$basearch")%string else url) :: urls in
            Written evs {| bf_targets := bf_targets bf;
                           bf_repositories :=
                             Some {| repo_keys := Some keys; repo_urls := Some urls |};
                           bf_target_repository := Some url |}
        end
    end.

End Local.

End LocalImport.

(* ------------------------------------------------------------------------- *)
(** ** [package_import/__init__.py] and the binary release task *)

Module PackageImport.

Section Ext.

Variable ext : Type.

(** [get_package_import_extension(args, extensions=extensions)]: the
    extensions in name order; [key == args.package_import] *)
Fixpoint get_package_import_extension (package_import : option string)
  (extensions : list (string * ext)) : option ext :=
  match extensions with
  | [] => None
  | (k, e) :: rest =>
      if LocalImport.opt_eqb package_import k then Some e
      else get_package_import_extension package_import rest
  end.

(** [default = next(iter(extensions.keys()), None)] of
    [add_package_import_arguments], and the [choices] *)
Definition package_import_default (extensions : list (string * ext))
  : option string :=
  match extensions with [] => None | (k, _) :: _ => Some k end.

Definition package_import_choices (extensions : list (string * ext))
  : list string := map fst extensions.

End Ext.

(** [BuildfarmReleaseBinaryBuildTask.release]: the steps it takes *)
Inductive release_step :=
| Rmtree (p : string)
| Mkdir (p : string)
| RunGenerate
| WriteScript (p : string)
| RunScript (cwd : string)
| ImportBinary (os_name os_code_name arch artifact_path : string).

(** the exceptions [release] raises: the [CalledProcessError] of
    [check_returncode], or the exception of [extension.import_binary]
    (an [AssertionError] or [IndexError] of the apt pool copy, a
    [CalledProcessError] of [dpkg-scanpackages] or [createrepo_c], ...) *)
Inductive release_error (exn : Type) :=
| CalledProcessError
| ImportRaised (e : exn).

Arguments CalledProcessError {exn}.
Arguments ImportRaised {exn} e.

Definition staging_dir (build_base build_name os_name code arch : string) : string :=
  (build_base ++ "/" ++ String.concat "." [build_name; os_name; code; arch])%string.

(** [staging_exists]: [staging_dir.exists()]; [gen_rc], [exec_rc]: exit
    statuses of the two subprocesses; [has_ext]: whether
    [get_package_import_extension(args)] found an extension;
    [import_exc]: the exception its [import_binary] raises, if any. *)
Definition release {exn : Type} (build_base build_name os_name code arch : string)
  (staging_exists : bool) (gen_rc exec_rc : Z) (has_ext : bool)
  (import_exc : option exn)
  : list release_step * option (release_error exn) :=
  let sd := staging_dir build_base build_name os_name code arch in
  let pre := (if staging_exists then [Rmtree sd] else []) ++ [Mkdir sd; RunGenerate] in
  if negb (Z.eqb gen_rc 0) then (pre, Some CalledProcessError)
  else
    let pre := pre ++ [WriteScript (sd ++ "/job.sh")%string; RunScript sd] in
    if negb (Z.eqb exec_rc 0) then (pre, Some CalledProcessError)
    else if has_ext
    then (pre ++ [ImportBinary os_name code arch (sd ++ "/binary")%string],
          match import_exc with
          | None => None
          | Some x => Some (ImportRaised x)
          end)
    else (pre, None).

End PackageImport.

(* ========================================================================= *)
(** * Properties *)

Example pkg_match_ex1 : pkg_match "foo-1.0-1.x86_64.rpm" = Some "foo"%string.
Proof. reflexivity. Qed.
Example pkg_match_ex2 :
  pkg_match "ros-humble-foo-debuginfo-0.1.2-1.el9.x86_64.rpm"
  = Some "ros-humble-foo-debuginfo"%string.
Proof. reflexivity. Qed.
Example pkg_match_ex3 : pkg_match "bad.rpm" = None.
Proof. reflexivity. Qed.
Example pkg_match_ex4 : pkg_match "a-b-1-2-3.x.rpm" = Some "a-b-1"%string.
Proof. reflexivity. Qed.

Example import_ex1 :
  out_files (import_to_no_lock
    [["Packages"; "f"; "foo-1.0-1.x86_64.rpm"]; ["Packages"; "b"; "bar-1-1.x.rpm"]]%string
    ["foo-2.0-1.x86_64.rpm"]%string 0)
  = [["Packages"; "b"; "bar-1-1.x.rpm"]; ["Packages"; "f"; "foo-2.0-1.x86_64.rpm"]]%string.
Proof. reflexivity. Qed.

Module RpmProofs.

Definition unparsable (r : string) : bool :=
  match pkg_match r with None => true | Some _ => false end.

(** a file named [r] is listed by [rglob('*.rpm')] and parses to [n] *)
Definition base_is (n r : string) : bool :=
  glob_match "*.rpm" r &&
  match pkg_match r with Some m => String.eqb m n | None => false end.

Definition has_base (n : string) (p : path) : bool := base_is n (name p).

(** The hard links all succeeded: no [IndexError], no [OSError]. *)
Definition linked (o : outcome) : Prop :=
  out_error o <> Some IndexError /\ out_error o <> Some OSError.

Lemma collect_names_snd rpms :
  snd (collect_names rpms) = map warn_msg (filter unparsable rpms).
Proof.
  induction rpms as [|r rest IH]; simpl; [reflexivity|].
  destruct (collect_names rest) as [names warns]; simpl in *.
  destruct (unparsable r) eqn:Hu; unfold unparsable in Hu;
    destruct (pkg_match r); simpl; congruence.
Qed.

Lemma names_of_spec rpms n :
  In n (names_of rpms) <-> exists r, In r rpms /\ pkg_match r = Some n.
Proof.
  unfold names_of; induction rpms as [|r rest IH]; simpl.
  - split; [tauto | intros (r & [] & _)].
  - destruct (collect_names rest) as [names warns] eqn:E; simpl in *.
    destruct (pkg_match r) as [m|] eqn:Em; simpl; rewrite IH; split.
    + intros [<- | (r' & Hin & Hm)]; eauto.
    + intros (r' & [<- | Hin] & Hm); [left; congruence | right; eauto].
    + intros (r' & Hin & Hm); eauto.
    + intros (r' & [<- | Hin] & Hm); [congruence | eauto].
Qed.

Lemma In_delete_conflicts names repo p :
  In p (delete_conflicts names repo) <-> In p repo /\ doomed names p = false.
Proof.
  unfold delete_conflicts; rewrite filter_In, negb_true_iff; tauto.
Qed.

Lemma link_all_grows repo rpms p :
  In p repo -> In p (fst (link_all repo rpms)).
Proof.
  revert repo; induction rpms as [|r rest IH]; intros repo Hp; simpl; auto.
  destruct (link_target r) as [t|]; simpl; auto.
  destruct (existsb _ repo); simpl; auto.
  apply IH, in_or_app; auto.
Qed.

Lemma link_all_success repo rpms repo' :
  link_all repo rpms = (repo', None) -> repo' = repo ++ map pool_path rpms.
Proof.
  revert repo; induction rpms as [|r rest IH]; intros repo H; simpl in H.
  - inversion H; subst; simpl; rewrite app_nil_r; reflexivity.
  - destruct r as [|c r']; [discriminate|]; simpl in H.
    destruct (existsb _ _); [discriminate|].
    apply IH in H; rewrite H, <- app_assoc; reflexivity.
Qed.

Lemma link_all_no_process_error repo rpms :
  snd (link_all repo rpms) <> Some CalledProcessError.
Proof.
  revert repo; induction rpms as [|r rest IH]; intros repo; simpl;
    [discriminate|].
  destruct (link_target r) as [t|]; simpl; [|discriminate].
  destruct (existsb _ repo); simpl; [discriminate | apply IH].
Qed.

(** The import, unfolded along the three loops. *)
Lemma import_to_no_lock_eq repo rpms rc :
  import_to_no_lock repo rpms rc =
  let repo1 := delete_conflicts (names_of rpms) repo in
  let '(repo2, err) := link_all repo1 rpms in
  {| out_files := repo2;
     out_warnings := snd (collect_names rpms);
     out_error := match err with
                  | Some e => Some e
                  | None => if Z.eqb rc 0 then None else Some CalledProcessError
                  end |}.
Proof.
  unfold import_to_no_lock, names_of.
  destruct (collect_names rpms) as [names warns]; simpl.
  destruct (link_all _ rpms) as [repo2 [e|]]; reflexivity.
Qed.

(** When no exception came from the link loop, the files are the surviving
    ones followed by the pool paths of the whole batch. *)
Lemma import_files_linked repo rpms rc :
  linked (import_to_no_lock repo rpms rc) ->
  out_files (import_to_no_lock repo rpms rc)
  = delete_conflicts (names_of rpms) repo ++ map pool_path rpms.
Proof.
  rewrite import_to_no_lock_eq; simpl.
  destruct (link_all _ rpms) as [repo2 [[]|]] eqn:E; simpl;
    intros [H1 H2]; cbn in H1, H2; try congruence.
  - exfalso; eapply link_all_no_process_error; rewrite E; reflexivity.
  - apply link_all_success in E; exact E.
Qed.

Lemma filter_none_true {A} (f : A -> bool) l :
  (forall x, In x l -> f x = false) -> filter f l = [].
Proof.
  induction l as [|x l IH]; intros H; simpl; auto.
  rewrite H by (left; reflexivity); apply IH; intros y Hy; apply H; right; auto.
Qed.

Lemma name_pool_path r : name (pool_path r) = r.
Proof. reflexivity. Qed.

Lemma filter_map_pool_path n rpms :
  filter (has_base n) (map pool_path rpms)
  = map pool_path (filter (base_is n) rpms).
Proof.
  induction rpms as [|r rest IH]; simpl; auto.
  unfold has_base at 1; rewrite name_pool_path.
  destruct (base_is n r); simpl; congruence.
Qed.

(** Claim C1 (counterexample): in a batch of four well-formed files and one
    unparsable one, the unparsable file is hard-linked into the pool too. *)
Lemma C1_unparsable_file_linked :
  let o := import_to_no_lock []
             ["a-1.0-1.x86_64.rpm"; "b-1.0-1.x86_64.rpm"; "c-1.0-1.x86_64.rpm";
              "d-1.0-1.x86_64.rpm"; "bad.rpm"]%string 0 in
  pkg_match "bad.rpm" = None /\
  out_warnings o = ["Failed to parse package name: bad.rpm"%string] /\
  In ["Packages"; "b"; "bad.rpm"]%string (out_files o) /\
  out_error o = None.
Proof.
  vm_compute. split; [reflexivity|]. split; [reflexivity|]. split; [|reflexivity].
  right; right; right; right; left; reflexivity.
Qed.

(** Claim C1 (amended): every batch file whose name does not match the
    package-identity pattern gets one warning and contributes no base name,
    so a pre-existing file is removed only because of a well-formed batch
    file with its base name; once the link loop succeeded, every file of the
    batch, unparsable ones included, is hard-linked at
    [Packages/<first char>/<name>]. *)
Theorem rpm_unparsable_warned_not_dropped repo rpms rc :
  linked (import_to_no_lock repo rpms rc) ->
  out_warnings (import_to_no_lock repo rpms rc)
    = map warn_msg (filter unparsable rpms) /\
  (forall p, In p repo -> ~ In p (out_files (import_to_no_lock repo rpms rc)) ->
     exists r n, In r rpms /\ pkg_match r = Some n /\ pkg_match (name p) = Some n) /\
  (forall r, In r rpms -> In (pool_path r) (out_files (import_to_no_lock repo rpms rc))).
Proof.
  intros Hl. pose proof (import_files_linked _ _ _ Hl) as Hf.
  split; [|split].
  - rewrite import_to_no_lock_eq; simpl.
    destruct (link_all _ rpms) as [? ?]; simpl; apply collect_names_snd.
  - intros p Hp Hnot. rewrite Hf in Hnot.
    destruct (doomed (names_of rpms) p) eqn:Hd.
    + unfold doomed in Hd; apply andb_true_iff in Hd as [_ Hd].
      destruct (pkg_match (name p)) as [n|] eqn:Hn; [|discriminate].
      apply existsb_exists in Hd as (m & Hm & Heq); apply String.eqb_eq in Heq; subst m.
      apply names_of_spec in Hm as (r & Hr & Hrn); eauto.
    + exfalso; apply Hnot, in_or_app; left; apply In_delete_conflicts; auto.
  - intros r Hr; rewrite Hf; apply in_or_app; right; apply in_map; auto.
Qed.

Lemma C1_witness :
  linked (import_to_no_lock []
            ["a-1.0-1.x86_64.rpm"; "b-1.0-1.x86_64.rpm"; "c-1.0-1.x86_64.rpm";
             "d-1.0-1.x86_64.rpm"; "bad.rpm"]%string 0) /\
  In (pool_path "bad.rpm") (out_files (import_to_no_lock []
            ["a-1.0-1.x86_64.rpm"; "b-1.0-1.x86_64.rpm"; "c-1.0-1.x86_64.rpm";
             "d-1.0-1.x86_64.rpm"; "bad.rpm"]%string 0)).
Proof.
  assert (H : linked (import_to_no_lock []
            ["a-1.0-1.x86_64.rpm"; "b-1.0-1.x86_64.rpm"; "c-1.0-1.x86_64.rpm";
             "d-1.0-1.x86_64.rpm"; "bad.rpm"]%string 0))
    by (vm_compute; split; discriminate).
  split; [exact H|].
  apply (rpm_unparsable_warned_not_dropped _ _ _ H).
  right; right; right; right; left; reflexivity.
Defined.

(** the name of the file at [p] parses to base name [n] *)
Definition parses_to (n : string) (p : path) : bool :=
  match pkg_match (name p) with Some m => String.eqb m n | None => false end.

(** Claim C2 (counterexample): two files of one batch sharing a base name
    both stay, and a pre-existing file whose name parses to the base name
    but is not listed by [rglob('*.rpm')] is not deleted. *)
Lemma C2_two_files_with_one_base_name :
  length (filter (parses_to "foo")
    (out_files (import_to_no_lock []
       ["foo-1.0-1.x86_64.rpm"; "foo-2.0-1.x86_64.rpm"]%string 0))) = 2 /\
  out_error (import_to_no_lock []
       ["foo-1.0-1.x86_64.rpm"; "foo-2.0-1.x86_64.rpm"]%string 0) = None /\
  length (filter (parses_to "foo")
    (out_files (import_to_no_lock [["Packages"; "f"; "foo-1.0-1.x86_64.rpm.orig"]]%string
       ["foo-2.0-1.x86_64.rpm"]%string 0))) = 2 /\
  out_error (import_to_no_lock [["Packages"; "f"; "foo-1.0-1.x86_64.rpm.orig"]]%string
       ["foo-2.0-1.x86_64.rpm"]%string 0) = None.
Proof. vm_compute; repeat split. Qed.

(** Claim C2 (amended): after a successful import, for every base name [n]
    parsed from the batch, the [*.rpm] files under the directory whose name
    parses to [n] are exactly the batch's own [*.rpm] files with base name
    [n], hard-linked at their pool paths: every pre-existing one is gone,
    whatever its version or release.  A base name carried by one batch file
    thus has exactly one such file afterwards. *)
Theorem rpm_import_replaces_base_name repo rpms rc n :
  out_error (import_to_no_lock repo rpms rc) = None ->
  In n (names_of rpms) ->
  filter (has_base n) (out_files (import_to_no_lock repo rpms rc))
  = map pool_path (filter (base_is n) rpms).
Proof.
  intros Hok Hn.
  rewrite import_files_linked
    by (unfold linked; rewrite Hok; split; discriminate).
  rewrite filter_app, filter_map_pool_path.
  rewrite (filter_none_true _ (delete_conflicts _ _)); [reflexivity|].
  intros p Hp; apply In_delete_conflicts in Hp as [_ Hd].
  unfold has_base, base_is; unfold doomed in Hd.
  destruct (glob_match "*.rpm" (name p)); simpl in *; auto.
  destruct (pkg_match (name p)) as [m|]; auto.
  destruct (String.eqb_spec m n) as [->|]; auto.
  assert (existsb (String.eqb n) (names_of rpms) = true)
    by (apply existsb_exists; exists n; split; auto; apply String.eqb_refl).
  congruence.
Qed.

Lemma C2_witness :
  out_error (import_to_no_lock [["Packages"; "f"; "foo-1.0-1.x86_64.rpm"]]%string
               ["foo-2.0-1.x86_64.rpm"]%string 0) = None /\
  In "foo"%string (names_of ["foo-2.0-1.x86_64.rpm"]%string) /\
  filter (has_base "foo")
    (out_files (import_to_no_lock [["Packages"; "f"; "foo-1.0-1.x86_64.rpm"]]%string
                 ["foo-2.0-1.x86_64.rpm"]%string 0))
  = [pool_path "foo-2.0-1.x86_64.rpm"].
Proof.
  assert (H1 : out_error (import_to_no_lock
                 [["Packages"; "f"; "foo-1.0-1.x86_64.rpm"]]%string
                 ["foo-2.0-1.x86_64.rpm"]%string 0) = None) by reflexivity.
  assert (H2 : In "foo"%string (names_of ["foo-2.0-1.x86_64.rpm"]%string))
    by (left; reflexivity).
  split; [exact H1|]; split; [exact H2|].
  rewrite (rpm_import_replaces_base_name _ _ _ _ H1 H2); reflexivity.
Defined.

(** Claim C8: when the links succeeded but [createrepo_c] exits non-zero,
    the import raises [CalledProcessError], and the files are those of the
    successful run: the conflict deletions and the new hard links stay. *)
Theorem rpm_indexer_failure_keeps_changes repo rpms rc :
  out_error (import_to_no_lock repo rpms 0) = None ->
  rc <> 0%Z ->
  out_error (import_to_no_lock repo rpms rc) = Some CalledProcessError /\
  out_files (import_to_no_lock repo rpms rc)
    = out_files (import_to_no_lock repo rpms 0) /\
  out_files (import_to_no_lock repo rpms rc)
    = delete_conflicts (names_of rpms) repo ++ map pool_path rpms.
Proof.
  rewrite !import_to_no_lock_eq; simpl.
  destruct (link_all _ rpms) as [repo2 [e|]] eqn:E; simpl; intros H0 Hrc;
    [discriminate|].
  apply Z.eqb_neq in Hrc; rewrite Hrc.
  apply link_all_success in E. auto.
Qed.

Lemma C8_witness :
  out_error (import_to_no_lock [["Packages"; "f"; "foo-1.0-1.x86_64.rpm"]]%string
               ["foo-2.0-1.x86_64.rpm"]%string 0) = None /\
  (1 <> 0)%Z /\
  out_files (import_to_no_lock [["Packages"; "f"; "foo-1.0-1.x86_64.rpm"]]%string
               ["foo-2.0-1.x86_64.rpm"]%string 1)
  = [pool_path "foo-2.0-1.x86_64.rpm"].
Proof.
  assert (H1 : out_error (import_to_no_lock
                 [["Packages"; "f"; "foo-1.0-1.x86_64.rpm"]]%string
                 ["foo-2.0-1.x86_64.rpm"]%string 0) = None) by reflexivity.
  assert (H2 : (1 <> 0)%Z) by lia.
  split; [exact H1|]; split; [exact H2|].
  destruct (rpm_indexer_failure_keeps_changes _ _ _ H1 H2) as (_ & _ & ->).
  reflexivity.
Defined.

End RpmProofs.

Module DebProofs.
Import Deb.

Lemma path_eqb_eq p q : path_eqb p q = true <-> p = q.
Proof. unfold path_eqb; destruct (list_eq_dec string_dec p q); split; congruence. Qed.

Lemma path_eqb_refl p : path_eqb p p = true.
Proof. apply path_eqb_eq; reflexivity. Qed.

Lemma path_eqb_sym p q : path_eqb p q = path_eqb q p.
Proof.
  destruct (path_eqb p q) eqn:E, (path_eqb q p) eqn:F; auto.
  - apply path_eqb_eq in E; subst; rewrite path_eqb_refl in F; discriminate.
  - apply path_eqb_eq in F; subst; rewrite path_eqb_refl in E; discriminate.
Qed.

Lemma lookup_app t1 t2 q :
  lookup (t1 ++ t2) q =
  match lookup t1 q with Some c => Some c | None => lookup t2 q end.
Proof.
  induction t1 as [|[p c] t1 IH]; simpl; auto.
  destruct (path_eqb p q); auto.
Qed.

Lemma lookup_map_set t p c q :
  lookup (map (fun '(r, d) => if path_eqb r p then (r, c) else (r, d)) t) q
  = if path_eqb p q then option_map (fun _ => c) (lookup t q) else lookup t q.
Proof.
  induction t as [|[r d] t IH]; simpl.
  - destruct (path_eqb p q); reflexivity.
  - destruct (path_eqb r p) eqn:Erp; simpl;
      destruct (path_eqb r q) eqn:Erq; rewrite ?IH;
      destruct (path_eqb p q) eqn:Epq; auto;
      repeat match goal with
             | H : path_eqb _ _ = true |- _ => apply path_eqb_eq in H; subst
             end;
      rewrite ?path_eqb_refl in *; try congruence.
Qed.

Lemma lookup_write t p c q :
  lookup (write_file t p c) q = if path_eqb p q then Some c else lookup t q.
Proof.
  unfold write_file, is_file.
  destruct (lookup t p) eqn:Hp.
  - rewrite lookup_map_set.
    destruct (path_eqb p q) eqn:Epq; auto.
    apply path_eqb_eq in Epq; subst q; rewrite Hp; reflexivity.
  - rewrite lookup_app; simpl.
    destruct (path_eqb p q) eqn:Epq.
    + apply path_eqb_eq in Epq; subst q; rewrite Hp; reflexivity.
    + destruct (lookup t q); auto.
Qed.

Lemma is_file_write t p c q :
  is_file (write_file t p c) q = path_eqb p q || is_file t q.
Proof.
  unfold is_file at 1; rewrite lookup_write.
  destruct (path_eqb p q); reflexivity.
Qed.

(** *** [initialize] *)

Definition tr (st : init_state) : tree := fst (fst st).

Lemma write_keeps t p c q :
  is_file t q = true -> is_file (write_file t p c) q = true.
Proof. intros H; rewrite is_file_write, H, orb_true_r; reflexivity. Qed.

Lemma write_has t p c : is_file (write_file t p c) p = true.
Proof. rewrite is_file_write, path_eqb_refl; reflexivity. Qed.

Lemma ensure_index_tr st p :
  tr (ensure_index st p)
  = if is_file (tr st) p then tr st else write_file (tr st) p EmptyString.
Proof. destruct st as [[t w] f]; unfold tr, ensure_index; simpl; destruct (is_file t p); reflexivity. Qed.

Lemma ensure_twin_tr st p gz :
  tr (ensure_twin st p gz)
  = if is_file (tr st) gz then tr st
    else write_file (tr st) gz (translate_newlines (read (tr st) p)).
Proof. destruct st as [[t w] f]; unfold tr, ensure_twin; simpl; destruct (is_file t gz); reflexivity. Qed.

Lemma ensure_index_keeps st p q :
  is_file (tr st) q = true -> is_file (tr (ensure_index st p)) q = true.
Proof. rewrite ensure_index_tr; destruct (is_file (tr st) p); auto using write_keeps. Qed.

Lemma ensure_index_has st p : is_file (tr (ensure_index st p)) p = true.
Proof.
  rewrite ensure_index_tr; destruct (is_file (tr st) p) eqn:E; auto using write_has.
Qed.

Lemma ensure_twin_keeps st p gz q :
  is_file (tr st) q = true -> is_file (tr (ensure_twin st p gz)) q = true.
Proof. rewrite ensure_twin_tr; destruct (is_file (tr st) gz); auto using write_keeps. Qed.

Lemma ensure_twin_has st p gz : is_file (tr (ensure_twin st p gz)) gz = true.
Proof.
  rewrite ensure_twin_tr; destruct (is_file (tr st) gz) eqn:E; auto using write_has.
Qed.

Lemma ensure_index_id t w f p :
  is_file t p = true -> ensure_index (t, w, f) p = (t, w, f).
Proof. intros H; simpl; rewrite H; reflexivity. Qed.

Lemma ensure_twin_id t w f p gz :
  is_file t gz = true -> ensure_twin (t, w, f) p gz = (t, w, f).
Proof. intros H; simpl; rewrite H; reflexivity. Qed.

Definition init_files (arch : string) : list path :=
  [sources_path; sources_gz_path; packages_path arch; packages_gz_path arch;
   release_path].

(** After [initialize], the two index files, their twins and [Release]
    are files. *)
Lemma initialize_creates md5 sha1 sha256 now t code arch q :
  In q (init_files arch) ->
  is_file (fst (initialize md5 sha1 sha256 now t code arch)) q = true.
Proof.
  cbv beta zeta delta [initialize].
  set (st1 := ensure_index (t, [], false) sources_path).
  set (st2 := ensure_twin st1 sources_path sources_gz_path).
  set (st3 := ensure_index st2 (packages_path arch)).
  assert (H4 : forall q, In q (init_files arch) -> q <> release_path ->
            is_file (tr (ensure_twin st3 (packages_path arch)
                                         (packages_gz_path arch))) q = true).
  { intros q' Hq Hr.
    destruct Hq as [<-|[<-|[<-|[<-|[<-|[]]]]]]; [| | | |congruence].
    - apply ensure_twin_keeps, ensure_index_keeps, ensure_twin_keeps,
        ensure_index_has.
    - apply ensure_twin_keeps, ensure_index_keeps, ensure_twin_has.
    - apply ensure_twin_keeps, ensure_index_has.
    - apply ensure_twin_has. }
  destruct (ensure_twin st3 _ _) as [[t4 w4] f4] eqn:E4; simpl in H4.
  intros Hq.
  destruct (negb (is_file t4 release_path) || f4) eqn:Eb; simpl.
  - unfold generate_release.
    destruct (path_eqb release_path q) eqn:Eq.
    + apply path_eqb_eq in Eq; subst q; apply write_has.
    + apply write_keeps, H4; auto.
      intros ->; rewrite path_eqb_refl in Eq; discriminate.
  - destruct (path_eqb release_path q) eqn:Eq.
    + apply path_eqb_eq in Eq; subst q.
      apply orb_false_iff in Eb as [Eb _]; apply negb_false_iff in Eb; exact Eb.
    + apply H4; auto.
      intros ->; rewrite path_eqb_refl in Eq; discriminate.
Qed.

(** A second apt [initialize] on the tree the first one left writes
    nothing and leaves the tree as it is. *)
Lemma deb_initialize_twice md5 sha1 sha256 now t code arch :
  let t1 := fst (initialize md5 sha1 sha256 now t code arch) in
  initialize md5 sha1 sha256 now t1 code arch = (t1, []).
Proof.
  intros t1.
  assert (H : forall q, In q (init_files arch) -> is_file t1 q = true)
    by (intros q Hq; apply initialize_creates; exact Hq).
  cbv beta zeta delta [initialize].
  rewrite ensure_index_id by (apply H; simpl; auto).
  rewrite ensure_twin_id by (apply H; simpl; auto).
  rewrite ensure_index_id by (apply H; simpl; auto 6).
  rewrite ensure_twin_id by (apply H; simpl; auto 6).
  rewrite (H release_path) by (simpl; auto 6).
  reflexivity.
Qed.

(** Claim C5: a second [initialize] with nothing changed performs no
    writes.  apt: run on the tree left by a first [initialize], it writes
    no file and returns the same tree.  rpm: every one of the [SRPMS],
    [<arch>] and [<arch>/debug] directories whose [repodata/repomd.xml]
    exists gets no [mkdir] and no [createrepo_c] run. *)
Theorem initialize_second_call_no_writes :
  (forall md5 sha1 sha256 now t code arch,
     let t1 := fst (initialize md5 sha1 sha256 now t code arch) in
     initialize md5 sha1 sha256 now t1 code arch = (t1, [])) /\
  (forall (has_repomd : RpmExtension.repo_dir -> bool) d,
     has_repomd d = true ->
     ~ In (RpmExtension.Mkdir d) (RpmExtension.initialize has_repomd) /\
     ~ In (RpmExtension.CreateRepo d) (RpmExtension.initialize has_repomd)) /\
  (forall has_repomd : RpmExtension.repo_dir -> bool,
     (forall d, has_repomd d = true) -> RpmExtension.initialize has_repomd = []).
Proof.
  split; [exact deb_initialize_twice|]. split.
  - intros has_repomd d Hd.
    unfold RpmExtension.initialize; simpl.
    destruct (has_repomd RpmExtension.SRPMS) eqn:E1,
             (has_repomd RpmExtension.ArchDir) eqn:E2,
             (has_repomd RpmExtension.DebugDir) eqn:E3;
      simpl; split; intros Hin;
      repeat (destruct Hin as [Hin|Hin]; [try discriminate Hin; injection Hin as <-; congruence|]);
      exact Hin.
  - intros has_repomd Hall; unfold RpmExtension.initialize; simpl.
    rewrite !Hall; reflexivity.
Qed.

(** *** The gzip twins *)

(** Claim C3 (code bug): at a fresh target, [initialize] writes
    [Sources.gz] (and [Packages.gz]) as a text copy of the index file made
    with [Path.open('w')], not with [gzip.open]: the twin of the empty index
    is the empty file, and the twin of a non-empty [Sources] holds the same
    text; neither starts with the gzip magic bytes. *)
Theorem deb_twin_not_gzip md5 sha1 sha256 now :
  let r := initialize md5 sha1 sha256 now [] "jammy"%string "amd64"%string in
  lookup (fst r) sources_gz_path = Some EmptyString /\
  lookup (fst r) (packages_gz_path "amd64"%string) = Some EmptyString /\
  In sources_gz_path (snd r) /\
  has_gzip_magic EmptyString = false /\
  let r' := initialize md5 sha1 sha256 now
              [(sources_path, "Package: foo"%string)] "jammy"%string "amd64"%string in
  lookup (fst r') sources_gz_path = Some "Package: foo"%string /\
  has_gzip_magic "Package: foo"%string = false.
Proof.
  split; [reflexivity|]. split; [reflexivity|].
  split; [simpl; auto|]. split; [reflexivity|].
  split; reflexivity.
Qed.

(** *** The [Release] file *)

Lemma string_ltb_asym a b : String.ltb a b = true -> String.ltb b a = false.
Proof.
  unfold String.ltb; rewrite (String.compare_antisym b a).
  destruct (String.compare a b); simpl; congruence.
Qed.

Lemma path_ltb_asym p q : path_ltb p q = true -> path_ltb q p = false.
Proof.
  revert q; induction p as [|a p IH]; intros [|b q]; simpl; auto; try discriminate.
  destruct (String.eqb_spec a b) as [->|Hab].
  - rewrite String.eqb_refl; apply IH.
  - destruct (String.eqb_spec b a); [congruence|]. apply string_ltb_asym.
Qed.

(** [b] does not come before [a] *)
Definition not_before (a b : path * string) : Prop := path_ltb (fst b) (fst a) = false.

Lemma insert_sorted_perm e l : Permutation (insert_sorted e l) (e :: l).
Proof.
  induction l as [|e' l IH]; simpl; auto.
  destruct (path_ltb (fst e) (fst e')); auto.
  eapply perm_trans; [apply perm_skip, IH | apply perm_swap].
Qed.

Lemma sort_paths_perm l : Permutation (sort_paths l) l.
Proof.
  induction l as [|e l IH]; simpl; auto.
  eapply perm_trans; [apply insert_sorted_perm | apply perm_skip, IH].
Qed.

Lemma insert_sorted_sorted e l :
  Sorted not_before l -> Sorted not_before (insert_sorted e l).
Proof.
  induction l as [|e' l IH]; intros Hs; simpl; auto.
  destruct (path_ltb (fst e) (fst e')) eqn:E.
  - constructor; auto. constructor. unfold not_before. apply path_ltb_asym; auto.
  - apply Sorted_inv in Hs as [Hs Hhd]. constructor; auto.
    destruct l as [|e'' l]; simpl.
    + constructor; exact E.
    + destruct (path_ltb (fst e) (fst e'')); constructor; auto.
      apply HdRel_inv in Hhd; exact Hhd.
Qed.

Lemma sort_paths_sorted l : Sorted not_before (sort_paths l).
Proof. induction l; simpl; auto using insert_sorted_sorted. Qed.

Lemma In_package_files t e :
  In e (package_files t) <->
  In e t /\ (packages_glob (fst e) || sources_glob (fst e)) = true.
Proof.
  unfold package_files; split.
  - intros H; apply (Permutation_in _ (sort_paths_perm _)) in H.
    apply in_app_iff in H as [H|H]; apply filter_In in H as [H1 H2];
      rewrite H2; [|rewrite orb_true_r]; auto.
  - intros [H1 H2]; apply (Permutation_in _ (Permutation_sym (sort_paths_perm _))).
    apply in_app_iff; apply orb_true_iff in H2 as [H2|H2];
      [left | right]; apply filter_In; auto.
Qed.

(** the text of a header line before its [':'] *)
Fixpoint field_name (s : string) : string :=
  match s with
  | EmptyString => EmptyString
  | String c s' => if Ascii.eqb c ":" then EmptyString else String c (field_name s')
  end.

(** Claim C4 (counterexample): a [Packages] file below the codename
    directory but not at [main/<component>/] is not listed in [Release]. *)
Lemma C4_nested_packages_not_listed :
  let t := [(["main"; "binary-amd64"; "extra"; "Packages"]%string,
             "Package: foo"%string)] in
  glob_match "Packages*" "Packages" = true /\
  package_files t = [] /\
  lookup (generate_release (fun _ => "d"%string) (fun _ => "d"%string)
            (fun _ => "d"%string) "now"%string t "jammy"%string) release_path
  = Some (String.concat EmptyString
            (map (fun l : string => (l ++ nl)%string)
                 (release_header "now"%string "jammy"%string))
          ++ "MD5Sum:" ++ nl ++ "SHA1:" ++ nl ++ "SHA256:" ++ nl)%string.
Proof. split; [reflexivity|]. split; reflexivity. Qed.

(** Claim C4 (amended): the [Release] file written by [_generate_release]
    is the eight header lines [Origin], [Label], [Suite], [Codename],
    [Date], [Architectures], [Components], [Description], then the blocks
    [MD5Sum], [SHA1], [SHA256]; each block has, for every file matching
    [main/*/Packages*] or [main/source/Sources*] below the codename
    directory (and only those), in sorted path order, the line
    [' <hex digest of its bytes> <its byte size> <its relative path>']. *)
Theorem release_file_layout md5 sha1 sha256 now t code :
  let files := package_files t in
  let block title (hex : string -> string) :=
    (title ++ ":" ++ nl ++
     String.concat EmptyString
       (map (fun e => " " ++ hex (snd e) ++ " "
                      ++ show_nat (String.length (snd e)) ++ " "
                      ++ join_path (fst e) ++ nl) files))%string in
  lookup (generate_release md5 sha1 sha256 now t code) release_path
  = Some (String.concat EmptyString
            (map (fun l : string => (l ++ nl)%string) (release_header now code))
          ++ block "MD5Sum" md5 ++ block "SHA1" sha1 ++ block "SHA256" sha256)%string /\
  map field_name (release_header now code)
  = ["Origin"; "Label"; "Suite"; "Codename"; "Date"; "Architectures";
     "Components"; "Description"]%string /\
  Sorted not_before files /\
  (forall e, In e files <->
             In e t /\ (packages_glob (fst e) || sources_glob (fst e)) = true).
Proof.
  split; [|split; [|split]].
  - unfold generate_release; rewrite lookup_write, path_eqb_refl; reflexivity.
  - reflexivity.
  - apply sort_paths_sorted.
  - apply In_package_files.
Qed.

End DebProofs.

Module RpmExtensionProofs.
Import RpmExtension.

Lemma In_glob_dir pat files r :
  In r (glob_dir pat files) <-> In r files /\ glob_match pat r = true.
Proof. unfold glob_dir; apply filter_In. Qed.

Lemma existsb_eqb_In x l : existsb (String.eqb x) l = true <-> In x l.
Proof.
  rewrite existsb_exists; split.
  - intros (y & Hy & E); apply String.eqb_eq in E; subst; auto.
  - intros H; exists x; split; auto; apply String.eqb_refl.
Qed.

Lemma In_set_union a b x : In x (set_union a b) <-> In x a \/ In x b.
Proof.
  unfold set_union; rewrite in_app_iff, filter_In, negb_true_iff.
  destruct (existsb (String.eqb x) a) eqn:E.
  - apply existsb_eqb_In in E; intuition congruence.
  - intuition congruence.
Qed.

Lemma In_set_diff a b x : In x (set_diff a b) <-> In x a /\ ~ In x b.
Proof.
  unfold set_diff; rewrite filter_In, negb_true_iff, <- (existsb_eqb_In x b).
  destruct (existsb (String.eqb x) b); intuition congruence.
Qed.

(** matches [*-debuginfo-*.rpm] or [*-debugsource-*.rpm] *)
Definition is_debug (r : string) : bool :=
  glob_match "*-debuginfo-*.rpm" r || glob_match "*-debugsource-*.rpm" r.

Lemma In_debug files r :
  In r (debug_rpms (partition_binary files)) <-> In r files /\ is_debug r = true.
Proof.
  simpl; rewrite In_set_union, !In_glob_dir; unfold is_debug.
  rewrite orb_true_iff; tauto.
Qed.

Lemma In_srpms files r :
  In r (srpms (partition_binary files)) <->
  In r files /\ glob_match "*.src.rpm" r = true.
Proof. simpl; apply In_glob_dir. Qed.

Lemma In_arch files r :
  In r (arch_rpms (partition_binary files)) <->
  In r files /\ glob_match "*.rpm" r = true /\
  glob_match "*.src.rpm" r = false /\ is_debug r = false.
Proof.
  change (arch_rpms (partition_binary files)) with
    (set_diff (set_diff (glob_dir "*.rpm" files) (glob_dir "*.src.rpm" files))
              (debug_rpms (partition_binary files))).
  rewrite !In_set_diff, In_debug, !In_glob_dir.
  destruct (glob_match "*.src.rpm" r), (is_debug r); intuition congruence.
Qed.



End RpmExtensionProofs.

Module DebPoolProofs.
Import Deb DebProofs DebPool.

Lemma lookup_None_notin t p : lookup t p = None -> ~ In p (map fst t).
Proof.
  induction t as [|[q c] t IH]; simpl; auto.
  destruct (path_eqb q p) eqn:E; [discriminate|].
  intros H [<-|Hin]; [rewrite path_eqb_refl in E; discriminate | exact (IH H Hin)].
Qed.

Lemma write_file_nodup t p c :
  NoDup (map fst t) -> NoDup (map fst (write_file t p c)).
Proof.
  unfold write_file, is_file; destruct (lookup t p) eqn:E; intros H.
  - rewrite map_map.
    replace (map (fun x => fst (let '(q, d) := x in
                                if path_eqb q p then (q, c) else (q, d))) t)
      with (map fst t); auto.
    apply map_ext; intros [q d]; destruct (path_eqb q p); reflexivity.
  - rewrite map_app; simpl. apply NoDup_app; auto using NoDup_cons, NoDup_nil.
    intros x Hx [<-|[]]. exact (lookup_None_notin _ _ E Hx).
Qed.

Lemma copy_good pool f c :
  has_underscore f = true -> before_underscore f <> EmptyString ->
  copy_to_pool pool f c = inl (write_file pool (pool_subpath f) c).
Proof.
  intros Hu Hn; unfold copy_to_pool, pool_subpath; rewrite Hu; simpl.
  destruct (before_underscore f) as [|c0 s]; [congruence|].
  destruct s; reflexivity.
Qed.

Lemma copy_all_other pool files q :
  (forall f c, In (f, c) files -> has_underscore f = true /\
                                  before_underscore f <> EmptyString) ->
  (forall f c, In (f, c) files -> pool_subpath f <> q) ->
  lookup (fst (copy_all pool files)) q = lookup pool q.
Proof.
  revert pool; induction files as [|[f c] rest IH]; intros pool Hg Hq; simpl; auto.
  destruct (Hg f c (or_introl eq_refl)) as [Hu Hn].
  rewrite copy_good by auto.
  rewrite IH by (intros f' c' Hin; eauto using in_cons).
  rewrite lookup_write.
  destruct (path_eqb (pool_subpath f) q) eqn:E; auto.
  apply path_eqb_eq in E; exfalso; exact (Hq f c (or_introl eq_refl) E).
Qed.

Lemma pool_subpath_inj f g : pool_subpath f = pool_subpath g -> f = g.
Proof. unfold pool_subpath; intros H; injection H; auto. Qed.

(** the copy loop over files that all copy: no exception, the pool paths
    stay distinct, each file is at its pool path *)
Lemma copy_all_good pool files :
  NoDup (map fst pool) -> NoDup (map fst files) ->
  (forall f c, In (f, c) files ->
      has_underscore f = true /\ before_underscore f <> EmptyString) ->
  snd (copy_all pool files) = None /\
  NoDup (map fst (fst (copy_all pool files))) /\
  (forall f c, In (f, c) files ->
      lookup (fst (copy_all pool files)) (pool_subpath f) = Some c).
Proof.
  intros Hpool Hfiles.
  revert pool Hpool; induction files as [|[f c] rest IH];
    intros pool Hpool Hg; simpl.
  - split; [reflexivity|]. split; [exact Hpool | intros f c []].
  - destruct (Hg f c (or_introl eq_refl)) as [Hu Hn].
    rewrite copy_good by auto.
    inversion Hfiles as [|? ? Hnot Hrest]; subst.
    assert (Hg' : forall f' c', In (f', c') rest ->
              has_underscore f' = true /\ before_underscore f' <> EmptyString)
      by (intros f' c' Hin; apply Hg with c'; right; exact Hin).
    destruct (IH Hrest _ (write_file_nodup _ (pool_subpath f) c Hpool) Hg')
      as (H1 & H2 & H3).
    split; [exact H1|]. split; [exact H2|].
    intros f' c' [Heq|Hin].
    + injection Heq as <- <-.
      rewrite copy_all_other; auto.
      * rewrite lookup_write, path_eqb_refl; reflexivity.
      * intros g d Hin E; apply pool_subpath_inj in E; subst g.
        apply Hnot; change f with (fst (f, d)); apply in_map; exact Hin.
    + apply H3; exact Hin.
Qed.

(** the loop goes on after the files that copy as if it started there *)
Lemma copy_all_app pool pre rest :
  (forall f c, In (f, c) pre ->
      has_underscore f = true /\ before_underscore f <> EmptyString) ->
  copy_all pool (pre ++ rest) = copy_all (fst (copy_all pool pre)) rest.
Proof.
  revert pool; induction pre as [|[f c] pre IH]; intros pool Hg; simpl; auto.
  destruct (Hg f c (or_introl eq_refl)) as [Hu Hn].
  rewrite copy_good by auto.
  apply IH; intros f' c' Hin; apply Hg with c'; right; exact Hin.
Qed.

Lemma NoDup_map_app_l {A B} (f : A -> B) (l r : list A) :
  NoDup (map f (l ++ r)) -> NoDup (map f l).
Proof.
  rewrite map_app; induction (map f l) as [|x xs IH]; simpl; intros H;
    [constructor|].
  inversion H as [|? ? Hx Hr]; subst. constructor; [|exact (IH Hr)].
  intros Hin; apply Hx, in_or_app; left; exact Hin.
Qed.

(** Claim C7 (amended): in an apt import, a globbed file whose name has no
    underscore makes the copy loop end with an exception.  When it is
    reached after files that copy, the loop stops there with the
    [AssertionError] of the contract check, and the pool holds the files
    copied before it, every other pool path being unchanged.  When every
    name has a non-empty part before its first underscore, every file is
    copied to [pool/<name[0]>/<name>/<file>], a file already there is
    overwritten, and each pool path holds exactly one file. *)
Theorem deb_import_copies pool files :
  NoDup (map fst pool) -> NoDup (map fst files) ->
  ((exists f c, In (f, c) files /\ has_underscore f = false) ->
     snd (copy_all pool files) <> None) /\
  (forall pre f c post, files = pre ++ (f, c) :: post ->
     (forall g d, In (g, d) pre ->
        has_underscore g = true /\ before_underscore g <> EmptyString) ->
     has_underscore f = false ->
     snd (copy_all pool files) = Some AssertionError /\
     NoDup (map fst (fst (copy_all pool files))) /\
     (forall g d, In (g, d) pre ->
        lookup (fst (copy_all pool files)) (pool_subpath g) = Some d) /\
     (forall q, (forall g d, In (g, d) pre -> pool_subpath g <> q) ->
        lookup (fst (copy_all pool files)) q = lookup pool q)) /\
  ((forall f c, In (f, c) files ->
      has_underscore f = true /\ before_underscore f <> EmptyString) ->
   snd (copy_all pool files) = None /\
   NoDup (map fst (fst (copy_all pool files))) /\
   (forall f c, In (f, c) files ->
      lookup (fst (copy_all pool files)) (pool_subpath f) = Some c)).
Proof.
  intros Hpool Hfiles. split; [|split].
  - intros (f & c & Hin & Hf). clear Hpool Hfiles.
    revert pool; induction files as [|[f' c'] rest IH]; intros pool;
      [destruct Hin|]; simpl.
    destruct (copy_to_pool pool f' c') as [pool'|e] eqn:E; [|discriminate].
    destruct Hin as [Heq|Hin].
    + injection Heq as -> ->.
      unfold copy_to_pool in E; rewrite Hf in E; discriminate.
    + apply IH; exact Hin.
  - intros pre f c post -> Hg Hf.
    rewrite copy_all_app by exact Hg.
    assert (Hfail : copy_all (fst (copy_all pool pre)) ((f, c) :: post)
                    = (fst (copy_all pool pre), Some AssertionError))
      by (simpl; unfold copy_to_pool; rewrite Hf; reflexivity).
    rewrite Hfail; cbn [fst snd].
    destruct (copy_all_good pool pre Hpool (NoDup_map_app_l _ _ _ Hfiles) Hg)
      as (_ & Hnd & Hl).
    split; [reflexivity|]. split; [exact Hnd|]. split; [exact Hl|].
    intros q Hq; apply copy_all_other; auto.
  - exact (copy_all_good pool files Hpool Hfiles).
Qed.

Lemma C7_witness :
  let pool := [([ "f"; "foo"; "foo_1.0-1_amd64.deb"]%string, "old"%string)] in
  let files := [("foo_1.0-1_amd64.deb"%string, "new"%string);
                ("foo-dbg_1.0-1_amd64.deb"%string, "dbg"%string)] in
  let bad := [("bar_1.0-1_amd64.deb"%string, "bar"%string);
              ("bar.deb"%string, "x"%string);
              ("baz_1.0-1_amd64.deb"%string, "baz"%string)] in
  (lookup (fst (copy_all pool files)) ["f"; "foo"; "foo_1.0-1_amd64.deb"]%string
   = Some "new"%string /\
   NoDup (map fst (fst (copy_all pool files)))) /\
  (snd (copy_all pool bad) = Some AssertionError /\
   lookup (fst (copy_all pool bad)) ["b"; "bar"; "bar_1.0-1_amd64.deb"]%string
   = Some "bar"%string /\
   lookup (fst (copy_all pool bad)) ["f"; "foo"; "foo_1.0-1_amd64.deb"]%string
   = Some "old"%string).
Proof.
  intros pool files bad.
  assert (Hp : NoDup (map fst pool)) by (constructor; [intros []|constructor]).
  split.
  - assert (Hf : NoDup (map fst files))
      by (constructor; [intros [E|[]]; discriminate E | constructor; [intros []|constructor]]).
    assert (Hg : forall f c, In (f, c) files ->
              has_underscore f = true /\ before_underscore f <> EmptyString)
      by (intros f c [E|[E|[]]]; injection E as <- <-; split; (reflexivity || discriminate)).
    destruct (deb_import_copies pool files Hp Hf) as (_ & _ & H).
    destruct (H Hg) as (_ & Hnd & Hl).
    split; [apply (Hl _ _ (or_introl eq_refl)) | exact Hnd].
  - assert (Hf : NoDup (map fst bad)) by (repeat constructor; simpl; intuition discriminate).
    destruct (deb_import_copies pool bad Hp Hf) as (_ & H & _).
    destruct (H [("bar_1.0-1_amd64.deb"%string, "bar"%string)] "bar.deb"%string "x"%string
                [("baz_1.0-1_amd64.deb"%string, "baz"%string)] eq_refl)
      as (He & _ & Hl & Ho).
    + intros g d [E|[]]; injection E as <- <-; split; [reflexivity | discriminate].
    + reflexivity.
    + split; [exact He|]. split; [exact (Hl _ _ (or_introl eq_refl))|].
      apply Ho. intros g d [E|[]]; injection E as <- <-; discriminate.
Defined.

(** Claim C7 (counterexample): a file name starting with an underscore has
    the underscore the contract asks for, yet it is not copied: the import
    fails with [IndexError]. *)
Lemma C7_leading_underscore_not_copied :
  has_underscore "_foo_1.0_amd64.deb"%string = true /\
  copy_all [] [("_foo_1.0_amd64.deb"%string, "x"%string)] = ([], Some IndexError).
Proof. split; reflexivity. Qed.

(** Claim C10: for a file name that contains an underscore,
    [_copy_to_pool] fails with [IndexError] (from [name[0]]), not with the
    [AssertionError] of the contract check, exactly when the name starts
    with the underscore, i.e. when the part before the first underscore is
    empty. *)
Theorem deb_copy_index_error pool fname c :
  has_underscore fname = true ->
  (copy_to_pool pool fname c = inr IndexError <->
   exists rest, fname = String "_" rest) /\
  (before_underscore fname = EmptyString <->
   exists rest, fname = String "_" rest).
Proof.
  intros Hu. destruct fname as [|ch rest]; [discriminate|].
  unfold copy_to_pool; rewrite Hu; simpl.
  destruct (Ascii.eqb_spec ch "_") as [->|Hne].
  - split; split; eauto.
  - split; split.
    + discriminate.
    + intros [r E]; injection E; intros; congruence.
    + discriminate.
    + intros [r E]; injection E; intros; congruence.
Qed.

Lemma C10_witness :
  copy_to_pool [] "_foo_1.0_amd64.deb"%string "x"%string = inr IndexError.
Proof.
  apply (deb_copy_index_error [] "_foo_1.0_amd64.deb"%string "x"%string
           eq_refl).
  exists "foo_1.0_amd64.deb"%string; reflexivity.
Defined.

End DebPoolProofs.

Module LocksProofs.
Import Locks.

Definition idle (t : task) : Prop := holding t = None.

Lemma held_app ts1 ts2 : held (ts1 ++ ts2) = held ts1 ++ held ts2.
Proof. unfold held; apply flat_map_app. Qed.

Lemma held_idle ts : Forall idle ts -> held ts = [].
Proof.
  induction 1 as [|t ts Ht _ IH]; simpl; auto.
  unfold idle in Ht; rewrite Ht; exact IH.
Qed.

Lemma step_keeps_exclusive ts ts' : step ts ts' -> NoDup (held ts) -> NoDup (held ts').
Proof.
  intros [ts1 ts2 k ks Hfree | ts1 ts2 k ks]; rewrite !held_app; simpl; intros Hnd.
  - apply (Permutation_NoDup (Permutation_middle _ _ _)).
    constructor; auto.
  - exact (NoDup_remove_1 _ _ _ Hnd).
Qed.

Lemma reachable_exclusive ts ts' :
  reachable ts ts' -> NoDup (held ts) -> NoDup (held ts').
Proof. induction 1; eauto using step_keeps_exclusive. Qed.

Lemma two_keys_in_parallel k1 k2 ks1 ks2 :
  k1 <> k2 ->
  reachable [start (k1 :: ks1); start (k2 :: ks2)]
            [{| pending := ks1; holding := Some k1 |};
             {| pending := ks2; holding := Some k2 |}].
Proof.
  intros Hne.
  apply reach_step with [{| pending := ks1; holding := Some k1 |}; start (k2 :: ks2)].
  { exact (step_acquire [] [start (k2 :: ks2)] k1 ks1 (fun H => H)). }
  apply reach_step with [{| pending := ks1; holding := Some k1 |};
                         {| pending := ks2; holding := Some k2 |}].
  { refine (step_acquire [{| pending := ks1; holding := Some k1 |}] [] k2 ks2 _).
    simpl; intros [E|[]]; congruence. }
  apply reach_refl.
Qed.

(** Claim C9: starting from import coroutines outside their critical
    sections, in every reachable state no two coroutines are inside a
    critical section for the same lock key (the repository directory): the
    keys held have no duplicates.  Critical sections for two different
    directories can be in flight at the same time. *)
Theorem import_locks_exclusive ts0 ts :
  Forall idle ts0 -> reachable ts0 ts ->
  NoDup (held ts) /\
  (forall k1 k2 ks1 ks2, k1 <> k2 ->
     reachable [start (k1 :: ks1); start (k2 :: ks2)]
               [{| pending := ks1; holding := Some k1 |};
                {| pending := ks2; holding := Some k2 |}]).
Proof.
  intros Hidle Hr. split.
  - apply (reachable_exclusive _ _ Hr). rewrite held_idle by exact Hidle.
    constructor.
  - exact two_keys_in_parallel.
Qed.

Lemma C9_witness :
  let t := deb_import_task ["repo"]%string "ubuntu"%string in
  NoDup (held [{| pending := []; holding := Some (["repo"; "ubuntu"]%string) |}; t]).
Proof.
  intros t.
  assert (Hidle : Forall idle [t; t]) by (repeat constructor).
  assert (Hr : reachable [t; t]
                 [{| pending := []; holding := Some (["repo"; "ubuntu"]%string) |}; t]).
  { apply reach_step with
      [{| pending := []; holding := Some (["repo"; "ubuntu"]%string) |}; t].
    - exact (step_acquire [] [t] ["repo"; "ubuntu"]%string [] (fun H => H)).
    - apply reach_refl. }
  exact (proj1 (import_locks_exclusive _ _ Hidle Hr)).
Defined.

End LocksProofs.

(* ========================================================================= *)
(** * Further properties of the code *)

Module RpmSourceProofs.
Import RpmExtension RpmSource.

(** [import_source] warns exactly when [sourcepkg] does not hold exactly
    one [*.src.rpm]; it imports into [SRPMS] exactly the [*.src.rpm] files,
    and only when there is at least one. *)
Theorem rpm_import_source_actions artifact_path files :
  ((exists m, In (Warn m) (import_source artifact_path files)) <->
   length (glob_dir "*.src.rpm" files) <> 1) /\
  (forall d l, In (ImportTo d l) (import_source artifact_path files) <->
     d = SRPMS /\ l = glob_dir "*.src.rpm" files /\ l <> []).
Proof.
  unfold import_source.
  generalize (glob_dir "*.src.rpm" files) as l0; intros l0.
  split.
  - destruct (Nat.eqb_spec (length l0) 1) as [E|E].
    + split; [|intros H; congruence].
      intros [m Hm]. destruct l0 as [|s ss]; simpl in Hm;
        [destruct Hm | destruct Hm as [Hm|[]]; discriminate].
    + split; [intros _; exact E|].
      intros _; eexists; simpl; left; reflexivity.
  - intros d l; rewrite in_app_iff.
    split.
    + intros [H|H].
      * destruct (Nat.eqb _ 1); simpl in H; [destruct H|].
        destruct H as [H|[]]; discriminate.
      * destruct l0 as [|s ss]; [destruct H|].
        destruct H as [H|[]]; injection H as <- <-.
        split; [reflexivity|]. split; [reflexivity | discriminate].
    + intros (-> & -> & Hne). right.
      destruct l0 as [|s ss]; [congruence | left; reflexivity].
Qed.

End RpmSourceProofs.

Module RpmPatternProofs.
Import RpmPattern.

(** no newline in [s] *)
Fixpoint all_not_newline (s : string) : bool :=
  match s with
  | EmptyString => true
  | String c s' => not_newline c && all_not_newline s'
  end.

(** [r] splits as [n ++ rest] with [n] a match of [(.+)] and [rest] a
    match of the rest of the pattern *)
Definition group1_split (r n : string) : Prop :=
  exists rest, r = (n ++ rest)%string /\ n <> EmptyString /\
               all_not_newline n = true /\ after_name rest = true.

Lemma group1_split_cons c s n :
  group1_split (String c s) n ->
  (n = String c EmptyString /\ not_newline c = true /\ after_name s = true) \/
  (exists n', n = String c n' /\ not_newline c = true /\ group1_split s n').
Proof.
  intros (rest & E & Hne & Hnl & Ha).
  destruct n as [|c' n']; [congruence|].
  simpl in E; injection E as <- E.
  simpl in Hnl; apply andb_true_iff in Hnl as [Hc Hnl].
  destruct n' as [|c'' n''].
  - left; simpl in E; subst; auto.
  - right; exists (String c'' n''); split; [reflexivity|]. split; [exact Hc|].
    exists rest; split; [exact E|]. split; [discriminate|]. auto.
Qed.

Lemma longest_name_spec s :
  match longest_name s with
  | Some n => group1_split s n /\
              forall n', group1_split s n' -> String.length n' <= String.length n
  | None => forall n', ~ group1_split s n'
  end.
Proof.
  induction s as [|c s IH]; simpl.
  - intros n' (rest & E & Hne & _). destruct n'; [congruence | discriminate].
  - destruct (not_newline c) eqn:Ec.
    + destruct (longest_name s) as [n|] eqn:El.
      * destruct IH as [(rest & E & Hne & Hnl & Ha) Hmax]. split.
        -- exists rest; split; [simpl; congruence|]. split; [discriminate|].
           simpl; rewrite Ec, Hnl; auto.
        -- intros n' H; apply group1_split_cons in H
             as [(-> & _ & _) | (n'' & -> & _ & H)]; simpl.
           ++ lia.
           ++ specialize (Hmax _ H); lia.
      * destruct (after_name s) eqn:Ea.
        -- split.
           ++ exists s; split; [reflexivity|]. split; [discriminate|].
              simpl; rewrite Ec; auto.
           ++ intros n' H; apply group1_split_cons in H
                as [(-> & _ & _) | (n'' & -> & _ & H)]; simpl.
              ** lia.
              ** exfalso; exact (IH _ H).
        -- intros n' H; apply group1_split_cons in H
             as [(_ & _ & Ha') | (n'' & _ & _ & H)].
           ++ congruence.
           ++ exact (IH _ H).
    + intros n' H; apply group1_split_cons in H
        as [(_ & Hc & _) | (_ & _ & Hc & _)]; congruence.
Qed.

Lemma append_same_length (a b x y : string) :
  (a ++ x)%string = (b ++ y)%string -> String.length a = String.length b -> a = b.
Proof.
  revert b; induction a as [|c a IH]; intros [|d b] E L; simpl in *;
    try discriminate; auto.
  injection E as -> E; f_equal; apply IH with (1 := E); lia.
Qed.

(** [self._pkg_match.match(name)] followed by [m.group(1)], as Python's
    backtracking computes it: there is a match exactly when [name] splits
    as a non-empty, newline-free prefix followed by a match of
    "-(\d+(?:\.\d+)*)-(\d+.*)\.([^\.]+)\.rpm", and group 1 is then the
    longest such prefix. *)
Theorem pkg_match_group1 r n :
  (pkg_match r = Some n <->
   group1_split r n /\
   forall n', group1_split r n' -> String.length n' <= String.length n) /\
  (pkg_match r = None <-> forall n', ~ group1_split r n').
Proof.
  unfold pkg_match; pose proof (longest_name_spec r) as Hs.
  destruct (longest_name r) as [m|] eqn:E.
  - destruct Hs as [Hm Hmax]. split.
    + split; [intros H; injection H as <-; auto|].
      intros [Hn Hnmax]. f_equal.
      pose proof (Hmax n Hn) as L1; pose proof (Hnmax m Hm) as L2.
      destruct Hm as (rm & Em & _), Hn as (rn & En & _).
      apply (append_same_length m n rm rn); [congruence | lia].
    + split; [discriminate|]. intros H; exfalso; exact (H m Hm).
  - split.
    + split; [discriminate|]. intros [Hn _]; exfalso; exact (Hs n Hn).
    + split; auto.
Qed.

End RpmPatternProofs.

Module RpmImportProofs.
Import RpmProofs RpmExtensionProofs.

Lemma is_prefix_refl p : is_prefix p p = true.
Proof. induction p as [|a p IH]; simpl; auto. rewrite String.eqb_refl; exact IH. Qed.

(** once the pool path of a batch file is taken, the link loop fails *)
Lemma link_all_blocked repo rpms r :
  In r rpms -> In (pool_path r) repo -> snd (link_all repo rpms) <> None.
Proof.
  revert repo; induction rpms as [|r0 rest IH]; intros repo Hin Hp; [destruct Hin|].
  simpl. destruct (link_target r0) as [t|] eqn:Lt; [|discriminate].
  destruct (existsb (fun p => is_prefix p t || is_prefix t p) repo) eqn:Ex;
    [discriminate|].
  destruct Hin as [<-|Hin].
  - destruct r0 as [|c r0]; [discriminate|]. injection Lt as <-.
    assert (Hx : existsb (fun p => is_prefix p (pool_path (String c r0))
                                    || is_prefix (pool_path (String c r0)) p)
                   repo = true).
    { apply existsb_exists; exists (pool_path (String c r0)).
      rewrite is_prefix_refl; auto. }
    congruence.
  - apply IH; [exact Hin | apply in_or_app; left; exact Hp].
Qed.

(** [_import_to_no_lock] deletes nothing but [*.rpm] files whose base
    name is the base name of a file of the batch: every other file of the
    repository directory outside the metadata directories [repodata/] and
    [.repodata/], which [createrepo_c --update] writes, is still there
    afterwards, whether the import succeeded or raised. *)
Theorem rpm_import_keeps_unrelated repo rpms rc p :
  In p repo ->
  hd EmptyString p <> "repodata"%string -> hd EmptyString p <> ".repodata"%string ->
  (forall n, glob_match "*.rpm" (name p) = true -> pkg_match (name p) = Some n ->
             forall r, In r rpms -> pkg_match r <> Some n) ->
  In p (out_files (import_to_no_lock repo rpms rc)).
Proof.
  intros Hp _ _ Hn.
  assert (Hd : doomed (names_of rpms) p = false).
  { unfold doomed.
    destruct (glob_match "*.rpm" (name p)) eqn:Eg; [|reflexivity].
    destruct (pkg_match (name p)) as [n|] eqn:Em; [|reflexivity]. simpl.
    destruct (existsb (String.eqb n) (names_of rpms)) eqn:Ex; [|reflexivity].
    apply existsb_eqb_In, names_of_spec in Ex as (r & Hr & Er).
    exfalso; exact (Hn n eq_refl eq_refl r Hr Er). }
  rewrite import_to_no_lock_eq; cbv zeta.
  pose proof (link_all_grows (delete_conflicts (names_of rpms) repo) rpms p) as G.
  destruct (link_all _ rpms) as [repo2 err]; simpl in *.
  apply G, In_delete_conflicts; auto.
Qed.

Lemma rpm_import_keeps_unrelated_witness :
  out_error (import_to_no_lock
    [["repodata"; "repomd.xml"]; pool_path "bar-1-1.x.rpm";
     pool_path "foo-1-1.x.rpm"; ["comps.xml"]]%string
    ["foo-1-2.x.rpm"]%string 0) = None /\
  ~ In (pool_path "foo-1-1.x.rpm")
      (out_files (import_to_no_lock
         [["repodata"; "repomd.xml"]; pool_path "bar-1-1.x.rpm";
          pool_path "foo-1-1.x.rpm"; ["comps.xml"]]%string
         ["foo-1-2.x.rpm"]%string 0)) /\
  In (pool_path "bar-1-1.x.rpm")
     (out_files (import_to_no_lock
        [["repodata"; "repomd.xml"]; pool_path "bar-1-1.x.rpm";
         pool_path "foo-1-1.x.rpm"; ["comps.xml"]]%string
        ["foo-1-2.x.rpm"]%string 0)) /\
  In ["comps.xml"]%string
     (out_files (import_to_no_lock
        [["repodata"; "repomd.xml"]; pool_path "bar-1-1.x.rpm";
         pool_path "foo-1-1.x.rpm"; ["comps.xml"]]%string
        ["foo-1-2.x.rpm"]%string 0)).
Proof.
  split; [vm_compute; reflexivity|]. split; [vm_compute; intuition discriminate|].
  split.
  - apply rpm_import_keeps_unrelated; [simpl; auto | discriminate | discriminate |].
    intros n _ E r [<-|[]]; simpl in E; injection E as <-. discriminate.
  - apply rpm_import_keeps_unrelated; [simpl; auto | discriminate | discriminate |].
    intros n E; discriminate E.
Defined.

(** Importing a file whose name does not parse fails when a file of that
    name is already in the pool (a previous import of it): the conflict
    deletion never removes it, so [hardlink_to] raises [FileExistsError]
    (or an earlier file of the batch fails first). *)
Theorem rpm_reimport_unparsable_fails repo rpms rc r :
  In r rpms -> pkg_match r = None -> In (pool_path r) repo ->
  out_error (import_to_no_lock repo rpms rc) <> None.
Proof.
  intros Hr Hm Hp.
  assert (Hk : In (pool_path r) (delete_conflicts (names_of rpms) repo)).
  { apply In_delete_conflicts; split; [exact Hp|].
    unfold doomed; rewrite name_pool_path, Hm, andb_false_r; reflexivity. }
  pose proof (link_all_blocked _ _ _ Hr Hk) as B.
  rewrite import_to_no_lock_eq; cbv zeta.
  destruct (link_all _ rpms) as [repo2 [e|]]; simpl in *; [discriminate|].
  exfalso; exact (B eq_refl).
Qed.

Lemma rpm_reimport_unparsable_fails_witness :
  out_error (import_to_no_lock [pool_path "bad.rpm"] ["bad.rpm"]%string 0)
  <> None.
Proof.
  apply (rpm_reimport_unparsable_fails _ _ _ "bad.rpm"%string);
    [simpl; auto | reflexivity | simpl; auto].
Defined.

End RpmImportProofs.

Module DebMetaProofs.
Import Deb DebProofs DebPool DebPoolProofs DebMeta.

Lemma lookup_In t p c : lookup t p = Some c -> In (p, c) t.
Proof.
  induction t as [|[q d] t IH]; simpl; [discriminate|].
  destruct (path_eqb q p) eqn:E; auto.
  intros H; injection H as <-; apply path_eqb_eq in E; subst; auto.
Qed.

Lemma In_write t p c : In (p, c) (write_file t p c).
Proof.
  unfold write_file, is_file.
  destruct (lookup t p) as [d|] eqn:E.
  - apply lookup_In in E. apply in_map_iff; exists (p, d).
    rewrite path_eqb_refl; auto.
  - apply in_or_app; right; left; reflexivity.
Qed.

Lemma In_write_other t p c q d :
  In (q, d) t -> q <> p -> In (q, d) (write_file t p c).
Proof.
  intros H Hne; unfold write_file.
  destruct (is_file t p).
  - apply in_map_iff; exists (q, d).
    destruct (path_eqb q p) eqn:E; [apply path_eqb_eq in E; congruence | auto].
  - apply in_or_app; left; exact H.
Qed.

Lemma filter_write (f : path -> bool) t p c :
  f p = false ->
  filter (fun e => f (fst e)) (write_file t p c) = filter (fun e => f (fst e)) t.
Proof.
  intros Hf; unfold write_file.
  destruct (is_file t p).
  - induction t as [|[q d] t IH]; simpl; auto.
    destruct (path_eqb q p) eqn:E; simpl.
    + apply path_eqb_eq in E; subst q; rewrite Hf; exact IH.
    + destruct (f q); [f_equal|]; exact IH.
  - rewrite filter_app; simpl; rewrite Hf, app_nil_r; reflexivity.
Qed.

Lemma package_files_write_other t p c :
  packages_glob p = false -> sources_glob p = false ->
  package_files (write_file t p c) = package_files t.
Proof.
  intros H1 H2; unfold package_files.
  rewrite (filter_write packages_glob), (filter_write sources_glob); auto.
Qed.

Lemma glob_star s : glob_match "*" s = true.
Proof. induction s as [|c s IH]; simpl in *; auto. Qed.

Lemma md_path_glob arch :
  packages_glob (md_path arch) || sources_glob (md_path arch) = true.
Proof.
  destruct arch as [[|c a]|]; unfold md_path; simpl; auto.
  rewrite glob_star; reflexivity.
Qed.

Lemma md_gz_path_glob arch :
  packages_glob (md_gz_path arch) || sources_glob (md_gz_path arch) = true.
Proof.
  destruct arch as [[|c a]|]; unfold md_gz_path; simpl; auto.
  rewrite glob_star; reflexivity.
Qed.

Lemma md_path_ne arch : md_path arch <> md_gz_path arch.
Proof.
  unfold md_path, md_gz_path, md_name.
  destruct (arch_truthy arch); intros E; injection E; discriminate.
Qed.

Lemma release_ne_md arch : release_path <> md_path arch.
Proof. discriminate. Qed.

Lemma release_ne_md_gz arch : release_path <> md_gz_path arch.
Proof. discriminate. Qed.

Lemma path_eqb_ne p q : p <> q -> path_eqb p q = false.
Proof. intros H; destruct (path_eqb p q) eqn:E; auto; apply path_eqb_eq in E; congruence. Qed.

Ltac ne_paths :=
  repeat first
    [ rewrite (path_eqb_ne _ _ (md_path_ne _))
    | rewrite (path_eqb_ne _ _ (not_eq_sym (md_path_ne _)))
    | rewrite (path_eqb_ne _ _ (release_ne_md _))
    | rewrite (path_eqb_ne _ _ (release_ne_md_gz _))
    | rewrite path_eqb_refl ].

Section Meta.
Variables md5 sha1 sha256 : string -> string.
Variable now : string.
Variable gz : string -> string.
Variables spk sps : string.

Let upd := update_metadata md5 sha1 sha256 now gz spk sps.

(** both files of [_RawAndGzFiles] hold the scanner's whole output,
    whatever the exit status *)
Lemma update_metadata_index t code arch out rc :
  lookup (meta_tree (upd t code arch out rc)) (md_path arch)
  = Some (String.concat EmptyString out) /\
  lookup (meta_tree (upd t code arch out rc)) (md_gz_path arch)
  = Some (gz (String.concat EmptyString out)).
Proof.
  unfold upd, update_metadata; cbn [meta_tree].
  destruct (Z.eqb rc 0); [unfold generate_release|]; rewrite ?lookup_write;
    ne_paths; rewrite ?lookup_write; ne_paths; auto.
Qed.

Lemma update_metadata_other t code arch out rc q :
  q <> md_path arch -> q <> md_gz_path arch -> q <> release_path ->
  lookup (meta_tree (upd t code arch out rc)) q = lookup t q.
Proof.
  intros H1 H2 H3.
  unfold upd, update_metadata; cbn [meta_tree].
  unfold release_path in H3.
  destruct (Z.eqb rc 0); [unfold generate_release|];
    repeat (rewrite lookup_write; destruct (path_eqb _ q) eqn:E;
            [apply path_eqb_eq in E; congruence | clear E]);
    reflexivity.
Qed.

(** A successful [_update_metadata] leaves the index ([Packages] of the
    architecture, or [Sources]) holding the scanner's output, its [.gz]
    twin the gzip stream of that output, and a [Release] that is the
    release text of the index files now in the tree, among them the two
    just written. *)
Theorem deb_update_metadata_ok t code arch out :
  let m := upd t code arch out 0 in
  let raw := String.concat EmptyString out in
  meta_error m = None /\
  meta_cmd m = dpkg_args spk sps arch /\
  lookup (meta_tree m) (md_path arch) = Some raw /\
  lookup (meta_tree m) (md_gz_path arch) = Some (gz raw) /\
  lookup (meta_tree m) release_path
  = Some (release_text md5 sha1 sha256 now code (package_files (meta_tree m))) /\
  In (md_path arch, raw) (package_files (meta_tree m)) /\
  In (md_gz_path arch, gz raw) (package_files (meta_tree m)).
Proof.
  intros m raw.
  destruct (update_metadata_index t code arch out 0) as [I1 I2].
  fold m in I1, I2.
  set (t1 := write_file (write_file t (md_path arch) raw) (md_gz_path arch) (gz raw)).
  assert (Em : meta_tree m = generate_release md5 sha1 sha256 now t1 code)
    by reflexivity.
  assert (Ep : package_files (meta_tree m) = package_files t1)
    by (rewrite Em; apply package_files_write_other; reflexivity).
  split; [reflexivity|]. split; [reflexivity|]. split; [exact I1|].
  split; [exact I2|]. split.
  - rewrite Ep, Em; unfold generate_release; rewrite lookup_write, path_eqb_refl.
    reflexivity.
  - rewrite Ep; split; apply In_package_files; cbn [fst]; split.
    + apply In_write_other; [apply In_write | apply md_path_ne].
    + apply md_path_glob.
    + apply In_write.
    + apply md_gz_path_glob.
Qed.

(** When the scanner exits non-zero, [_update_metadata] raises after
    both index files were rewritten; [Release] and every other file are
    left as they were, so [Release] no longer describes the index. *)
Theorem deb_update_metadata_failure t code arch out rc :
  rc <> 0%Z ->
  let m := upd t code arch out rc in
  meta_error m = Some CalledProcessError /\
  lookup (meta_tree m) (md_path arch) = Some (String.concat EmptyString out) /\
  lookup (meta_tree m) (md_gz_path arch) = Some (gz (String.concat EmptyString out)) /\
  (forall q, q <> md_path arch -> q <> md_gz_path arch ->
     lookup (meta_tree m) q = lookup t q).
Proof.
  intros Hrc m.
  destruct (update_metadata_index t code arch out rc) as [I1 I2].
  split; [unfold m, upd, update_metadata; cbn; rewrite (proj2 (Z.eqb_neq _ _) Hrc); reflexivity|].
  split; [exact I1|]. split; [exact I2|].
  intros q H1 H2. unfold m, upd, update_metadata; cbn [meta_tree].
  rewrite (proj2 (Z.eqb_neq _ _) Hrc), !lookup_write,
    (path_eqb_ne _ _ (not_eq_sym H1)), (path_eqb_ne _ _ (not_eq_sym H2)).
  reflexivity.
Qed.

(** [arch = ''] is falsy for the paths but not [None] for the command:
    [dpkg-scanpackages --arch ''] runs and its output goes to
    [main/source/Sources] (and [Sources.gz]). *)
Theorem deb_update_metadata_empty_arch t code out rc :
  let m := upd t code (Some EmptyString) out rc in
  meta_cmd m = [spk; "--arch"; ""; "pool/"]%string /\
  lookup (meta_tree m) sources_path = Some (String.concat EmptyString out) /\
  lookup (meta_tree m) sources_gz_path = Some (gz (String.concat EmptyString out)).
Proof.
  intros m. split; [reflexivity|].
  exact (update_metadata_index t code (Some EmptyString) out rc).
Qed.

End Meta.


Lemma deb_update_metadata_failure_witness :
  let m := update_metadata (fun _ => EmptyString) (fun _ => EmptyString)
             (fun _ => EmptyString) "now"%string (fun s => s)
             "dpkg-scanpackages"%string "dpkg-scansources"%string
             [(release_path, "old"%string)] "jammy"%string (Some "amd64"%string)
             ["Package: foo"%string] 2 in
  lookup (meta_tree m) release_path = Some "old"%string.
Proof.
  intros m.
  destruct (deb_update_metadata_failure (fun _ => EmptyString) (fun _ => EmptyString)
             (fun _ => EmptyString) "now"%string (fun s => s)
             "dpkg-scanpackages"%string "dpkg-scansources"%string
             [(release_path, "old"%string)] "jammy"%string (Some "amd64"%string)
             ["Package: foo"%string] 2 ltac:(discriminate)) as (_ & _ & _ & H).
  exact (H release_path (release_ne_md _) (release_ne_md_gz _)).
Defined.

(** *** The imports *)

Lemma copy_to_pool_inl pool f c p' :
  copy_to_pool pool f c = inl p' -> p' = write_file pool (pool_subpath f) c.
Proof.
  unfold copy_to_pool, pool_subpath.
  destruct (negb (has_underscore f)); [discriminate|].
  destruct (before_underscore f) as [|c0 s]; [discriminate|].
  intros H; injection H as <-. destruct s; reflexivity.
Qed.

Lemma copy_all_untouched pool files q :
  (forall f c, In (f, c) files -> pool_subpath f <> q) ->
  lookup (fst (copy_all pool files)) q = lookup pool q.
Proof.
  revert pool; induction files as [|[f c] rest IH]; intros pool Hq; simpl; auto.
  destruct (copy_to_pool pool f c) as [p'|e] eqn:E; simpl; auto.
  apply copy_to_pool_inl in E; subst p'.
  rewrite IH by (intros f' c' Hin; eauto using in_cons).
  rewrite lookup_write, (path_eqb_ne _ _ (Hq f c (or_introl eq_refl))).
  reflexivity.
Qed.

Lemma copy_all_ok pool files :
  (forall f c, In (f, c) files ->
     has_underscore f = true /\ before_underscore f <> EmptyString) ->
  snd (copy_all pool files) = None.
Proof.
  revert pool; induction files as [|[f c] rest IH]; intros pool Hg; simpl; auto.
  destruct (Hg f c (or_introl eq_refl)) as [Hu Hn].
  rewrite copy_good by auto.
  apply IH; intros f' c' Hin; eauto using in_cons.
Qed.

(** a name matched by one of the three globs of [import_source] *)
Definition source_match (f : string) : bool :=
  existsb (fun pat => glob_match pat f) source_globs.

Lemma In_source_files files f c :
  In (f, c) (source_files files) <-> In (f, c) files /\ source_match f = true.
Proof.
  unfold source_files, source_match; rewrite in_flat_map, existsb_exists.
  split.
  - intros (pat & Hp & H); apply filter_In in H as [H1 H2]; eauto.
  - intros [H1 (pat & Hp & H2)]; exists pat; split; auto; apply filter_In; auto.
Qed.

Lemma In_binary_files files f c :
  In (f, c) (binary_files files) <-> In (f, c) files /\ glob_match "*.deb" f = true.
Proof. unfold binary_files; rewrite filter_In; reflexivity. Qed.

Section Imports.
Variables md5 sha1 sha256 : string -> string.
Variable now : string.
Variable gz : string -> string.
Variables spk sps : string.

Lemma import_batch_spec r code arch batch out rc :
  let res := import_batch md5 sha1 sha256 now gz spk sps r code arch batch out rc in
  pool (fst res) = fst (copy_all (pool r) batch) /\
  match snd (copy_all (pool r) batch) with
  | Some e => dist (fst res) = dist r /\ snd res = Some (PoolError e)
  | None =>
      let m := update_metadata md5 sha1 sha256 now gz spk sps (dist r) code arch out rc in
      dist (fst res) = meta_tree m /\ snd res = meta_error m
  end.
Proof.
  unfold import_batch; destruct (copy_all (pool r) batch) as [p' [e|]]; simpl; auto.
Qed.

Lemma import_batch_effect r code arch batch out rc :
  let res := import_batch md5 sha1 sha256 now gz spk sps r code arch batch out rc in
  (forall q, (forall f c, In (f, c) batch -> pool_subpath f <> q) ->
     lookup (pool (fst res)) q = lookup (pool r) q) /\
  (forall e, snd res = Some (PoolError e) -> dist (fst res) = dist r) /\
  ((forall f c, In (f, c) batch ->
      has_underscore f = true /\ before_underscore f <> EmptyString) ->
   snd res = (if Z.eqb rc 0 then None else Some CalledProcessError) /\
   lookup (dist (fst res)) (md_path arch) = Some (String.concat EmptyString out) /\
   lookup (dist (fst res)) (md_gz_path arch) = Some (gz (String.concat EmptyString out))).
Proof.
  intros res. destruct (import_batch_spec r code arch batch out rc) as [Hp Hd].
  fold res in Hp, Hd.
  split; [intros q Hq; rewrite Hp; apply copy_all_untouched; exact Hq|].
  split.
  - intros e He. destruct (snd (copy_all (pool r) batch)) as [e'|].
    + apply Hd.
    + destruct Hd as [_ Hd]; rewrite Hd in He.
      unfold update_metadata in He; cbn in He.
      destruct (Z.eqb rc 0); discriminate.
  - intros Hg. rewrite (copy_all_ok _ _ Hg) in Hd. destruct Hd as [Hd He].
    rewrite Hd, He.
    destruct (update_metadata_index md5 sha1 sha256 now gz spk sps (dist r) code arch out rc)
      as [I1 I2].
    split; [reflexivity|]. split; [exact I1 | exact I2].
Qed.

(** apt [import_source]: only the files of [sourcedeb] matched by
    [*.dsc], [*.orig.tar.gz] or [*.debian.tar.xz] can change the pool; an
    exception while copying leaves [dists] (index, [Release]) untouched;
    when every matched name has a non-empty part before an underscore,
    [main/source/Sources] and [Sources.gz] receive the scanner output and
    the import fails exactly when the scanner does. *)
Theorem deb_import_source_effect r code files out rc :
  let res := import_source md5 sha1 sha256 now gz spk sps r code files out rc in
  (forall q, (forall f c, In (f, c) files -> source_match f = true -> pool_subpath f <> q) ->
     lookup (pool (fst res)) q = lookup (pool r) q) /\
  (forall e, snd res = Some (PoolError e) -> dist (fst res) = dist r) /\
  ((forall f c, In (f, c) files -> source_match f = true ->
      has_underscore f = true /\ before_underscore f <> EmptyString) ->
   snd res = (if Z.eqb rc 0 then None else Some CalledProcessError) /\
   lookup (dist (fst res)) sources_path = Some (String.concat EmptyString out) /\
   lookup (dist (fst res)) sources_gz_path = Some (gz (String.concat EmptyString out))).
Proof.
  intros res.
  destruct (import_batch_effect r code None (source_files files) out rc)
    as (H1 & H2 & H3).
  split; [|split; [exact H2|]].
  - intros q Hq; apply H1; intros f c Hin; apply In_source_files in Hin as [Hin Hm].
    exact (Hq f c Hin Hm).
  - intros Hg; apply H3; intros f c Hin; apply In_source_files in Hin as [Hin Hm].
    exact (Hg f c Hin Hm).
Qed.

(** apt [import_binary]: only the [*.deb] files of [binarydeb] can change
    the pool; an exception while copying leaves [dists] untouched; when
    every [*.deb] name has a non-empty part before an underscore, the
    architecture's index and its [.gz] twin receive the scanner output and
    the import fails exactly when the scanner does. *)
Theorem deb_import_binary_effect r code arch files out rc :
  let res := import_binary md5 sha1 sha256 now gz spk sps r code arch files out rc in
  (forall q, (forall f c, In (f, c) files -> glob_match "*.deb" f = true ->
                          pool_subpath f <> q) ->
     lookup (pool (fst res)) q = lookup (pool r) q) /\
  (forall e, snd res = Some (PoolError e) -> dist (fst res) = dist r) /\
  ((forall f c, In (f, c) files -> glob_match "*.deb" f = true ->
      has_underscore f = true /\ before_underscore f <> EmptyString) ->
   snd res = (if Z.eqb rc 0 then None else Some CalledProcessError) /\
   lookup (dist (fst res)) (md_path (Some arch)) = Some (String.concat EmptyString out) /\
   lookup (dist (fst res)) (md_gz_path (Some arch))
   = Some (gz (String.concat EmptyString out))).
Proof.
  intros res.
  destruct (import_batch_effect r code (Some arch) (binary_files files) out rc)
    as (H1 & H2 & H3).
  split; [|split; [exact H2|]].
  - intros q Hq; apply H1; intros f c Hin; apply In_binary_files in Hin as [Hin Hm].
    exact (Hq f c Hin Hm).
  - intros Hg; apply H3; intros f c Hin; apply In_binary_files in Hin as [Hin Hm].
    exact (Hg f c Hin Hm).
Qed.

End Imports.

(** *** [initialize] *)

Lemma ensure_index_lookup st p q :
  (is_file (tr st) q = true \/ q <> p) ->
  lookup (tr (ensure_index st p)) q = lookup (tr st) q.
Proof.
  intros H; rewrite ensure_index_tr.
  destruct (is_file (tr st) p) eqn:E; auto.
  rewrite lookup_write; destruct (path_eqb p q) eqn:Epq; auto.
  apply path_eqb_eq in Epq; subst; destruct H; congruence.
Qed.

Lemma ensure_twin_lookup st p gz q :
  (is_file (tr st) q = true \/ q <> gz) ->
  lookup (tr (ensure_twin st p gz)) q = lookup (tr st) q.
Proof.
  intros H; rewrite ensure_twin_tr.
  destruct (is_file (tr st) gz) eqn:E; auto.
  rewrite lookup_write; destruct (path_eqb gz q) eqn:Epq; auto.
  apply path_eqb_eq in Epq; subst; destruct H; congruence.
Qed.

(** apt [initialize] never changes a file that already exists, except
    [Release], and writes nothing but the two index files, their twins and
    [Release]. *)
Theorem deb_initialize_keeps md5 sha1 sha256 now t code arch q :
  q <> release_path ->
  (is_file t q = true \/ ~ In q (init_files arch)) ->
  lookup (fst (initialize md5 sha1 sha256 now t code arch)) q = lookup t q.
Proof.
  intros Hr H.
  set (G := fun st : init_state => is_file (tr st) q = true \/ ~ In q (init_files arch)).
  assert (Gi : forall st p, G st -> G (ensure_index st p))
    by (intros st p [Hg|Hg]; [left; apply ensure_index_keeps | right]; auto).
  assert (Gt : forall st p gz, G st -> G (ensure_twin st p gz))
    by (intros st p gz [Hg|Hg]; [left; apply ensure_twin_keeps | right]; auto).
  assert (Hk : forall st p, In p (init_files arch) -> G st ->
                 is_file (tr st) q = true \/ q <> p)
    by (intros st p Hp [Hg|Hg]; [left; exact Hg | right; intros ->; exact (Hg Hp)]).
  assert (G0 : G (t, [], false)) by exact H.
  cbv beta zeta delta [initialize].
  set (st1 := ensure_index (t, [], false) sources_path).
  set (st2 := ensure_twin st1 sources_path sources_gz_path).
  set (st3 := ensure_index st2 (packages_path arch)).
  assert (L : lookup (tr (ensure_twin st3 (packages_path arch) (packages_gz_path arch))) q
              = lookup t q).
  { rewrite ensure_twin_lookup by (apply Hk; [simpl; auto 6 | unfold st3, st2, st1; auto]).
    unfold st3; rewrite ensure_index_lookup by (apply Hk; [simpl; auto 6 | unfold st2, st1; auto]).
    unfold st2; rewrite ensure_twin_lookup by (apply Hk; [simpl; auto 6 | unfold st1; auto]).
    unfold st1; rewrite ensure_index_lookup by (apply Hk; [simpl; auto 6 | auto]).
    reflexivity. }
  destruct (ensure_twin st3 _ _) as [[t4 w4] f4]; unfold tr in L; simpl in L.
  destruct (negb (is_file t4 release_path) || f4); simpl; [|exact L].
  unfold generate_release; rewrite lookup_write.
  destruct (path_eqb _ q) eqn:E; [|exact L].
  apply path_eqb_eq in E; unfold release_path in Hr; congruence.
Qed.

Lemma deb_initialize_keeps_witness :
  lookup (fst (initialize (fun _ => EmptyString) (fun _ => EmptyString)
                 (fun _ => EmptyString) "now"%string
                 [(sources_path, "Package: foo"%string)] "jammy"%string "amd64"%string))
         sources_path = Some "Package: foo"%string.
Proof.
  apply deb_initialize_keeps; [discriminate | left; reflexivity].
Defined.

End DebMetaProofs.

Module LocalImportProofs.
Import LocalImport.

Section Callers.
Variable ext : Type.
Variable package_format : string -> option string.
Variable disk : Type.
Variable exn : Type.
Variable initialize : ext -> string -> string -> string -> disk -> disk * option exn.
Variable exts : list (string * ext).

Local Abbreviation select os :=
  (select_local_repository_extension ext package_format os exts).
Local Abbreviation loop := (init_targets ext package_format disk exn initialize exts).
Local Abbreviation server := (set_up_server ext package_format disk exn initialize exts).
Local Abbreviation augment := (augment_config ext package_format disk exn initialize exts).

(** the [initialize] call of one target, when its OS has an extension *)
Definition init_of (tg : string * string * string) : list (setup_event ext) :=
  let '(os, code, arch) := tg in
  match select os with
  | Some e => [Init ext e os code arch]
  | None => []
  end.

Definition supported (targets : list (string * string * string)) : Prop :=
  forall os code arch, In (os, code, arch) targets -> select os <> None.

(** the [initialize] calls of [evs], made in order from the disk [d], all
    return: the disk afterwards *)
Fixpoint inits_return (evs : list (setup_event ext)) (d : disk) : option disk :=
  match evs with
  | [] => Some d
  | Init _ e os code arch :: rest =>
      match initialize e os code arch d with
      | (d', None) => inits_return rest d'
      | (_, Some _) => None
      end
  | StartServer _ :: rest => inits_return rest d
  end.

(** the loop after targets that all have an extension and whose
    [initialize] calls return goes on as if it started there *)
Lemma init_targets_prefix pre rest d d1 :
  supported pre -> inits_return (flat_map init_of pre) d = Some d1 ->
  loop (pre ++ rest) d =
  let '(evs, d', err) := loop rest d1 in (flat_map init_of pre ++ evs, d', err).
Proof.
  revert d; induction pre as [|[[os code] arch] pre IH]; intros d Hs Hr; simpl in *.
  - injection Hr as <-. destruct (loop rest d) as [[evs d'] err]; reflexivity.
  - unfold init_of at 1 in Hr; unfold init_of at 1.
    destruct (select os) as [e|] eqn:E;
      [|exfalso; exact (Hs os code arch (or_introl eq_refl) E)].
    simpl in Hr. destruct (initialize e os code arch d) as [d' [x|]]; [discriminate|].
    rewrite IH with (d := d'); auto.
    + destruct (loop rest d1) as [[evs d''] err]; reflexivity.
    + intros o c a Hin; exact (Hs o c a (or_intror Hin)).
Qed.

Lemma init_targets_none targets d evs d' :
  loop targets d = (evs, d', None) ->
  supported targets /\ evs = flat_map init_of targets /\ inits_return evs d = Some d'.
Proof.
  revert d evs; induction targets as [|[[os code] arch] rest IH]; intros d evs H;
    simpl in H.
  - injection H as <- <-; split; [intros o c a []|auto].
  - unfold init_of at 1; simpl.
    destruct (select os) as [e|] eqn:E; [|discriminate].
    destruct (initialize e os code arch d) as [d1 [x|]] eqn:Ei; [discriminate|].
    destruct (loop rest d1) as [[evs' d''] err] eqn:Er.
    injection H as <- -> ->.
    destruct (IH d1 evs' Er) as (Hs & -> & Hr). split; [|split; [reflexivity|]].
    + intros o c a [Eq|Hin]; [injection Eq as <- <- <-; congruence | exact (Hs o c a Hin)].
    + simpl; rewrite Ei; exact Hr.
Qed.

Lemma set_up_server_ok targets d started evs d' hp :
  server targets d started = (evs, d', inl hp) <->
  supported targets /\ evs = flat_map init_of targets ++ [StartServer ext] /\
  inits_return (flat_map init_of targets) d = Some d' /\ started = inl hp.
Proof.
  unfold set_up_server. split.
  - destruct (loop targets d) as [[evs0 d0] [m|]] eqn:E; [discriminate|].
    intros H. destruct started as [hp'|x]; [|discriminate].
    injection H as <- <- <-.
    destruct (init_targets_none _ _ _ _ E) as (Hs & -> & Hr); auto.
  - intros (Hs & -> & Hr & ->).
    pose proof (init_targets_prefix targets [] d d' Hs Hr) as P.
    rewrite app_nil_r in P; simpl in P; rewrite app_nil_r in P.
    rewrite P; reflexivity.
Qed.

(** [_set_up_server] starts the file server and returns its address
    exactly when every target's OS has a local repository extension, the
    [initialize] calls of that extension, one per target and in order, all
    return, and the server starts. *)
Theorem set_up_server_starts targets d started evs d' hp :
  server targets d started = (evs, d', inl hp) <->
  supported targets /\ evs = flat_map init_of targets ++ [StartServer ext] /\
  inits_return (flat_map init_of targets) d = Some d' /\ started = inl hp.
Proof.
  split.
  - intros H; apply set_up_server_ok; exact H.
  - intros H; apply set_up_server_ok; exact H.
Qed.

(** When the targets before the first target whose OS has no extension
    are initialized without an exception, [_set_up_server] raises
    [RuntimeError('No local repo support for <os>')] there: no target
    after it is initialized and no server is started. *)
Theorem set_up_server_unsupported pre os code arch post d d1 started :
  supported pre -> select os = None ->
  inits_return (flat_map init_of pre) d = Some d1 ->
  server (pre ++ (os, code, arch) :: post) d started
  = (flat_map init_of pre, d1,
     inr (RuntimeError exn ("No local repo support for " ++ os)%string)).
Proof.
  intros Hs Hn Hr. unfold set_up_server.
  rewrite (init_targets_prefix pre _ d d1 Hs Hr); simpl; rewrite Hn.
  rewrite app_nil_r; reflexivity.
Qed.

(** An exception of an extension's [initialize] ends [_set_up_server]:
    it propagates, no later target is initialized or checked for an
    extension, and no server is started. *)
Theorem set_up_server_init_raises pre os code arch post e d d1 d2 x started :
  supported pre -> select os = Some e ->
  inits_return (flat_map init_of pre) d = Some d1 ->
  initialize e os code arch d1 = (d2, Some x) ->
  server (pre ++ (os, code, arch) :: post) d started
  = (flat_map init_of pre ++ [Init ext e os code arch], d2, inr (Raised exn x)).
Proof.
  intros Hs He Hr Hi. unfold set_up_server.
  rewrite (init_targets_prefix pre _ d d1 Hs Hr); simpl; rewrite He, Hi.
  reflexivity.
Qed.

(** [repositories.setdefault('keys', [])] and [setdefault('urls', [])] *)
Definition old_keys (bf : build_file) : list string :=
  match bf_repositories bf with
  | Some r => match repo_keys r with Some k => k | None => [] end
  | None => []
  end.

Definition old_urls (bf : build_file) : list string :=
  match bf_repositories bf with
  | Some r => match repo_urls r with Some u => u | None => [] end
  | None => []
  end.

(** the targets of the first OS of the build file *)
Definition os_targets (os : string) (target : list (string * list string))
  : list (string * string * string) :=
  flat_map (fun '(code, arches) => map (fun arch => (os, code, arch)) arches) target.

Lemma augment_written pi bn rd bf d host port evs bf' :
  augment pi bn rd bf d (inl (host, port)) = Written ext exn evs bf' ->
  pi = Some "local"%string /\ bn <> None /\ rd <> None /\
  exists os target rest,
    bf_targets bf = (os, target) :: rest /\
    evs = flat_map init_of (os_targets os target) ++ [StartServer ext] /\
    bf_targets bf' = bf_targets bf /\
    bf_target_repository bf' = Some (repo_url host port os) /\
    bf_repositories bf' =
      Some {| repo_keys := Some (EmptyString :: old_keys bf);
              repo_urls := Some ((if String.eqb os "fedora" || String.eqb os "rhel"
                                  then (repo_url host port os ++ "/$releasever/$basearch")%string
                                  else repo_url host port os) :: old_urls bf) |}.
Proof.
  unfold augment_config.
  destruct (negb (opt_eqb pi "local") || negb (is_some bn) || negb (is_some rd)) eqn:C;
    [discriminate|].
  apply orb_false_iff in C as [C C3]; apply orb_false_iff in C as [C1 C2].
  apply negb_false_iff in C1, C2, C3.
  unfold first_os_targets.
  destruct (bf_targets bf) as [|[os target] rest] eqn:Et; [discriminate|].
  destruct (server _ d (inl (host, port))) as [[evs0 d0] [[h p]|m]] eqn:Es;
    [|discriminate].
  intros H; injection H as <- <-.
  apply set_up_server_ok in Es as (_ & Es & _ & Ehp).
  injection Ehp as <- <-.
  split; [destruct pi as [p|]; [apply String.eqb_eq in C1; congruence | discriminate]|].
  split; [destruct bn; [discriminate | discriminate]|].
  split; [destruct rd; [discriminate | discriminate]|].
  exists os, target, rest. split; [reflexivity|]. split; [exact Es|].
  cbn. split; [first [reflexivity | exact Et | symmetry; exact Et]|]. split; [reflexivity|].
  unfold old_keys, old_urls.
  destruct (bf_repositories bf) as [[k u]|]; reflexivity.
Qed.

(** When [augment_config] rewrites the build file, its [targets] are
    those of the first OS only, each initialized in order; an empty key
    ['']  is put in front of [repositories.keys]; the server URL for that
    OS, with ['/$releasever/$basearch'] for [fedora] and [rhel], is put in
    front of [repositories.urls]; and [target_repository] is the URL
    without that suffix. *)
Theorem augment_config_rewrites pi bn rd bf d host port evs bf' :
  augment pi bn rd bf d (inl (host, port)) = Written ext exn evs bf' ->
  pi = Some "local"%string /\ bn <> None /\ rd <> None /\
  exists os target rest,
    bf_targets bf = (os, target) :: rest /\
    evs = flat_map init_of (os_targets os target) ++ [StartServer ext] /\
    bf_targets bf' = bf_targets bf /\
    bf_target_repository bf' = Some (repo_url host port os) /\
    bf_repositories bf' =
      Some {| repo_keys := Some (EmptyString :: old_keys bf);
              repo_urls := Some ((if String.eqb os "fedora" || String.eqb os "rhel"
                                  then (repo_url host port os ++ "/$releasever/$basearch")%string
                                  else repo_url host port os) :: old_urls bf) |}.
Proof. exact (augment_written pi bn rd bf d host port evs bf'). Qed.


End Callers.

Definition demo_format (os : string) : option string :=
  if String.eqb os "fedora" then Some "rpm"%string
  else if String.eqb os "ubuntu" then Some "deb"%string else None.

(** an [initialize] that counts its calls on the disk and raises for the
    [ppc64le] architecture *)
Definition demo_init (e : nat) (os code arch : string) (d : nat) : nat * option string :=
  if String.eqb arch "ppc64le" then (d, Some "CalledProcessError"%string)
  else (S d, None).

Definition demo_build_file : build_file :=
  {| bf_targets := [("fedora"%string, [("39"%string, ["x86_64"; "aarch64"]%string)])];
     bf_repositories := None; bf_target_repository := None |}.

Lemma set_up_server_unsupported_witness :
  set_up_server nat demo_format nat string demo_init [("rpm"%string, 1)]
    (app [("fedora", "39", "x86_64")%string] (("ubuntu", "jammy", "amd64")%string :: []))
    0 (inl ("localhost"%string, 80))
  = ([Init nat 1 "fedora" "39" "x86_64"]%string, 1,
     inr (RuntimeError string "No local repo support for ubuntu"%string)).
Proof.
  apply (set_up_server_unsupported nat demo_format nat string demo_init
           [("rpm"%string, 1)]).
  - intros o c a [E|[]]; injection E as <- <- <-; discriminate.
  - reflexivity.
  - reflexivity.
Defined.

Lemma set_up_server_init_raises_witness :
  set_up_server nat demo_format nat string demo_init [("rpm"%string, 1)]
    (app [("fedora", "39", "x86_64")%string]
         (("fedora", "39", "ppc64le")%string :: ("ubuntu", "jammy", "amd64")%string :: []))
    0 (inl ("localhost"%string, 80))
  = ([Init nat 1 "fedora" "39" "x86_64"; Init nat 1 "fedora" "39" "ppc64le"]%string, 1,
     inr (Raised string "CalledProcessError"%string)).
Proof.
  refine (set_up_server_init_raises nat demo_format nat string demo_init
            [("rpm"%string, 1)] [("fedora", "39", "x86_64")%string]
            "fedora"%string "39"%string "ppc64le"%string [("ubuntu", "jammy", "amd64")%string]
            1 0 1 1 "CalledProcessError"%string (inl ("localhost"%string, 80))
            _ _ _ _).
  - intros o c a [E|[]]; injection E as <- <- <-; discriminate.
  - reflexivity.
  - reflexivity.
  - reflexivity.
Defined.

Lemma augment_config_rewrites_witness :
  exists evs bf',
    augment_config nat demo_format nat string demo_init [("rpm"%string, 1)]
      (Some "local"%string) (Some "b"%string) (Some "rolling"%string)
      demo_build_file 0 (inl ("localhost"%string, 80))
    = Written nat string evs bf' /\
    bf_target_repository bf' = Some "http://localhost:80/fedora"%string.
Proof.
  do 2 eexists. split; [reflexivity|].
  destruct (augment_config_rewrites nat demo_format nat string demo_init
              [("rpm"%string, 1)]
              (Some "local"%string) (Some "b"%string) (Some "rolling"%string)
              demo_build_file 0 "localhost"%string 80 _ _ eq_refl)
    as (_ & _ & _ & os & target & rest & E & _ & _ & R & _).
  injection E as <- <- <-. exact R.
Defined.


End LocalImportProofs.

Module PackageImportProofs.
Import PackageImport.

Lemma get_first ext k (e : ext) rest :
  get_package_import_extension ext (Some k) ((k, e) :: rest) = Some e.
Proof. simpl; rewrite String.eqb_refl; reflexivity. Qed.

(** [get_package_import_extension] (extension names are distinct): it
    returns the extension whose name is [args.package_import], [None] for
    a name that is not a choice or for [None]; with the default of
    [--package-import] it returns the first extension in name order. *)
Theorem package_import_selection ext (exts : list (string * ext)) :
  NoDup (package_import_choices ext exts) ->
  (forall k e, In (k, e) exts ->
     get_package_import_extension ext (Some k) exts = Some e) /\
  (forall k, ~ In k (package_import_choices ext exts) ->
     get_package_import_extension ext (Some k) exts = None) /\
  get_package_import_extension ext None exts = None /\
  (forall k e rest, exts = (k, e) :: rest ->
     package_import_default ext exts = Some k /\
     get_package_import_extension ext (package_import_default ext exts) exts = Some e).
Proof.
  unfold package_import_choices. intros Hnd. split; [|split; [|split]].
  - induction exts as [|[k' e'] rest IH]; intros k e Hin; [destruct Hin|].
    inversion Hnd as [|? ? Hnot Hrest]; subst.
    destruct Hin as [E|Hin].
    + injection E as <- <-; apply get_first.
    + simpl. destruct (String.eqb_spec k k') as [->|Hne].
      * exfalso; apply Hnot; change k' with (fst (k', e)); apply in_map; exact Hin.
      * apply IH; auto.
  - intros k Hk. clear Hnd.
    induction exts as [|[k' e'] rest IH]; simpl in *; auto.
    destruct (String.eqb_spec k k'); [exfalso; auto|]. apply IH; auto.
  - clear Hnd; induction exts as [|[k' e'] rest IH]; simpl; auto.
  - intros k e rest ->; split; [reflexivity | apply get_first].
Qed.

Lemma package_import_selection_witness :
  get_package_import_extension nat (Some "pulp"%string)
    [("local"%string, 7); ("pulp"%string, 8)] = Some 8 /\
  get_package_import_extension nat (Some "ftp"%string)
    [("local"%string, 7); ("pulp"%string, 8)] = None /\
  get_package_import_extension nat
    (package_import_default nat [("local"%string, 7); ("pulp"%string, 8)])
    [("local"%string, 7); ("pulp"%string, 8)] = Some 7.
Proof.
  assert (Hnd : NoDup (package_import_choices nat
                         [("local"%string, 7); ("pulp"%string, 8)]))
    by (repeat constructor; simpl; intuition discriminate).
  destruct (package_import_selection nat _ Hnd) as (H1 & H2 & _ & H4).
  split; [apply H1; right; left; reflexivity|].
  split; [apply H2; simpl; intuition discriminate|].
  exact (proj2 (H4 _ _ _ eq_refl)).
Defined.


End PackageImportProofs.
